(** * youtube-playlist-downloader: the subprocess retry orchestrator

    A shallow embedding of the three source files

      - [src/youtube-downloader.js]
      - [src/youtube-single-downloader.js]
      - [src/youtube-playlist-downloader.js]

    Each file holds several generations of the same classes.  The async
    methods are embedded as interaction trees over the effects they perform:
    [exec] of a shell command, [setTimeout], [console.log] / [console.error],
    and the promise tick of a [.then] / [.catch] reaction. *)

From Stdlib Require Import ZArith List String Ascii Bool Arith Lia DecimalString.
From Equations Require Import Equations.
Import ListNotations.
Local Open Scope string_scope.

(** ** JavaScript values *)

Module JS.

(** The primitive values a configuration field can hold.  Numbers are the
    integral ones ([maxHeight] is a pixel count); [NaN] is kept apart
    because it is falsy. *)
Inductive value : Type :=
| undefined
| null
| boolean (b : bool)
| number (n : Z)
| NaN
| str (s : string).

(** ToBoolean: what [!v], [v ? a : b] and [v || w] test. *)
Definition truthy (v : value) : bool :=
  match v with
  | undefined | null | NaN => false
  | boolean b => b
  | number n => negb (n =? 0)%Z
  | str s => negb (s =? "")
  end.

Definition string_of_Z (n : Z) : string :=
  NilZero.string_of_int (Z.to_int n).

(** ToString, as applied by a template literal. *)
Definition toString (v : value) : string :=
  match v with
  | undefined => "undefined"
  | null => "null"
  | boolean true => "true"
  | boolean false => "false"
  | number n => string_of_Z n
  | NaN => "NaN"
  | str s => s
  end.

(** [a || b] *)
Definition or (a b : value) : value := if truthy a then a else b.

(** Thrown values: [new Error(message)], the [TypeError] the runtime
    raises when a parameter pattern destructures [undefined] or [null] or
    when [path.join] is given something that is not a string, and the
    [ReferenceError] it raises when an identifier that no scope declares is
    evaluated. *)
Inductive error : Type :=
| Error (message : string)
| TypeError (message : string)
| ReferenceError (message : string).

Definition message (e : error) : string :=
  match e with Error m | TypeError m | ReferenceError m => m end.

(** [String.prototype.includes] as a proposition. *)
Definition includes (s part : string) : Prop :=
  exists before after, s = before ++ part ++ after.

(** [Array.prototype.join] *)
Fixpoint join (sep : string) (xs : list string) : string :=
  match xs with
  | [] => ""
  | [x] => x
  | x :: rest => x ++ sep ++ join sep rest
  end.

End JS.

(** The double quote and the line feed, which the command lines and error
    messages of the source contain. *)
Definition dq : string := String "034"%char EmptyString.
Definition nl : string := String "010"%char EmptyString.

(** A settled promise. *)
Inductive settled (A : Type) : Type :=
| Fulfilled (a : A)
| Rejected (e : JS.error).
Arguments Fulfilled {A} a.
Arguments Rejected {A} e.

(** ** Effects *)

(** One ['data'] event of a child process. *)
Inductive chunk : Type :=
| stdout (data : string)
| stderr (data : string).

(** What one child process does from launch to ['close']: its chunks in
    order of arrival and the exit code ([None] is the [null] the runtime
    passes when a signal ended the process). *)
Record proc_run : Type := mkRun {
  chunks : list chunk;
  exit : option Z
}.

Inductive console_line : Type :=
| log (text : string)
| error (text : string).

(** The trace of effects.  Every list is in chronological order. *)
Record world : Type := mkWorld {
  launched : list string;
  timers : list Z;
  console : list console_line
}.

Definition world0 : world := mkWorld [] [] [].

Definition do_exec (c : string) (w : world) : world :=
  mkWorld (launched w ++ [c]) (timers w) (console w).
Definition do_timer (ms : Z) (w : world) : world :=
  mkWorld (launched w) (timers w ++ [ms]) (console w).
Definition do_print (l : console_line) (w : world) : world :=
  mkWorld (launched w) (timers w) (console w ++ [l]).

(** An async computation, as the tree of its suspension points. *)
Inductive prog (A : Type) : Type :=
| Ret (a : A)
| Exec (command : string) (k : proc_run -> prog A)
| Sleep (ms : Z) (k : prog A)
| Console (l : console_line) (k : prog A)
| Tick (k : prog A).
Arguments Ret {A} a.
Arguments Exec {A} command k.
Arguments Sleep {A} ms k.
Arguments Console {A} l k.
Arguments Tick {A} k.

Fixpoint bind {A B : Type} (p : prog A) (f : A -> prog B) : prog B :=
  match p with
  | Ret a => f a
  | Exec c k => Exec c (fun r => bind (k r) f)
  | Sleep ms k => Sleep ms (bind k f)
  | Console l k => Console l (bind k f)
  | Tick k => Tick (bind k f)
  end.

(** Sequential execution of one computation: the [n]-th process launched
    behaves as [launcher n]. *)
Fixpoint run {A : Type} (launcher : nat -> proc_run) (p : prog A) (w : world)
  : A * world :=
  match p with
  | Ret a => (a, w)
  | Exec c k => run launcher (k (launcher (List.length (launched w)))) (do_exec c w)
  | Sleep ms k => run launcher k (do_timer ms w)
  | Console l k => run launcher k (do_print l w)
  | Tick k => run launcher k w
  end.

(** The same execution as one chronological list, which keeps the order
    between a launch, a timer and a line of output.  [n] is the number of
    processes launched before [p] starts, as [List.length (launched w)] is
    for [run]. *)
Inductive effect : Type :=
| Launch (command : string)
| Wait (ms : Z)
| Output (l : console_line).

Fixpoint history {A : Type} (launcher : nat -> proc_run) (p : prog A) (n : nat)
  : list effect :=
  match p with
  | Ret _ => []
  | Exec c k => Launch c :: history launcher (k (launcher n)) (S n)
  | Sleep ms k => Wait ms :: history launcher k n
  | Console l k => Output l :: history launcher k n
  | Tick k => history launcher k n
  end.

(** The ['data'] handlers of the retrying methods: relay each chunk to the
    console and append it to its accumulator. *)
Fixpoint on_data {A : Type} (cs : list chunk) (outputLog errorLog : string)
  (k : string -> string -> prog A) : prog A :=
  match cs with
  | [] => k outputLog errorLog
  | stdout data :: cs' =>
      Console (log data) (on_data cs' (outputLog ++ data) errorLog k)
  | stderr data :: cs' =>
      Console (error data) (on_data cs' outputLog (errorLog ++ data) k)
  end.

(** [`${code}`] for the argument of the ['close'] event. *)
Definition show_code (code : option Z) : string :=
  match code with
  | Some n => JS.string_of_Z n
  | None => "null"
  end.

(** [code === n] *)
Definition code_is (code : option Z) (n : Z) : bool :=
  match code with
  | Some c => (c =? n)%Z
  | None => false
  end.

Definition maxRetries : nat := 3.

Definition show_nat (n : nat) : string := JS.string_of_Z (Z.of_nat n).

(** ** The event loop

    Two methods start several promises and await [Promise.all] of them.
    Between the start and the end of such a call the runtime interleaves
    the promises as their processes close and their timers fire.  The state
    of such a call is a pool of tasks; a schedule is the order in which the
    runtime wakes them.  Nothing constrains the schedule, so every order the
    runtime can produce is among those considered. *)

Definition promise : Type := prog (settled JS.value).

Inductive task : Type :=
| Settled (r : settled JS.value)
| OnClose (pid : nat) (k : proc_run -> promise)
| OnTimer (k : promise)
| OnTick (k : promise).

(** Run a computation up to its next suspension point. *)
Fixpoint advance (p : promise) (w : world) : task * world :=
  match p with
  | Ret r => (Settled r, w)
  | Exec c k => (OnClose (List.length (launched w)) k, do_exec c w)
  | Sleep ms k => (OnTimer k, do_timer ms w)
  | Console l k => advance k (do_print l w)
  | Tick k => (OnTick k, w)
  end.

(** The code that follows [await Promise.all(...)] in the caller, with its
    [catch] block: neither caller suspends again. *)
Definition continuation : Type :=
  settled (list JS.value) -> world -> settled JS.value * world.

Inductive caller : Type :=
| Awaiting (k : continuation)
| Returned (r : settled JS.value).

Record loop : Type := mkLoop {
  tasks : list task;
  rejection : option JS.error;   (* the first rejection among the tasks *)
  caller_state : caller;
  trace : world
}.

(** [Promise.all] rejects with the first rejection it sees. *)
Definition note (t : task) (rej : option JS.error) : option JS.error :=
  match rej, t with
  | None, Settled (Rejected e) => Some e
  | _, _ => rej
  end.

(** It fulfils once every promise has, with their values in order. *)
Fixpoint values (ts : list task) : option (list JS.value) :=
  match ts with
  | [] => Some []
  | Settled (Fulfilled v) :: ts' => option_map (cons v) (values ts')
  | _ :: _ => None
  end.

Definition all_outcome (l : loop) : option (settled (list JS.value)) :=
  match rejection l with
  | Some e => Some (Rejected e)
  | None => option_map Fulfilled (values (tasks l))
  end.

Inductive signal : Type := Close | Timer | Reaction.

Inductive event : Type :=
| Wake (i : nat) (s : signal)
| Resume.

Definition wake (launcher : nat -> proc_run) (s : signal) (t : task)
  : option promise :=
  match s, t with
  | Close, OnClose pid k => Some (k (launcher pid))
  | Timer, OnTimer k => Some k
  | Reaction, OnTick k => Some k
  | _, _ => None
  end.

Fixpoint replace {X : Type} (i : nat) (x : X) (l : list X) : list X :=
  match l, i with
  | [], _ => []
  | _ :: l', O => x :: l'
  | y :: l', S i' => y :: replace i' x l'
  end.

(** One turn of the loop; [None] when the event cannot happen in this
    state. *)
Definition step (launcher : nat -> proc_run) (ev : event) (l : loop)
  : option loop :=
  match ev with
  | Wake i s =>
      match nth_error (tasks l) i with
      | Some t =>
          match wake launcher s t with
          | Some p =>
              let (t', w') := advance p (trace l) in
              Some (mkLoop (replace i t' (tasks l)) (note t' (rejection l))
                           (caller_state l) w')
          | None => None
          end
      | None => None
      end
  | Resume =>
      match caller_state l, all_outcome l with
      | Awaiting k, Some s =>
          let (r, w') := k s (trace l) in
          Some (mkLoop (tasks l) (rejection l) (Returned r) w')
      | _, _ => None
      end
  end.

Fixpoint run_events (launcher : nat -> proc_run) (evs : list event) (l : loop)
  : option loop :=
  match evs with
  | [] => Some l
  | ev :: evs' =>
      match step launcher ev l with
      | Some l' => run_events launcher evs' l'
      | None => None
      end
  end.

(** Creating the promises runs each of them, in order, up to its first
    suspension point. *)
Fixpoint start_all (ps : list promise) (rej : option JS.error) (w : world)
  : list task * option JS.error * world :=
  match ps with
  | [] => ([], rej, w)
  | p :: ps' =>
      let (t, w1) := advance p w in
      let '(ts, rej', w2) := start_all ps' (note t rej) w1 in
      (t :: ts, rej', w2)
  end.

(** [await Promise.all(ps)], followed by [k]. *)
Definition await_all (ps : list promise) (k : continuation) (w : world)
  : loop :=
  let '(ts, rej, w') := start_all ps None w in
  mkLoop ts rej (Awaiting k) w'.

(** ** Call arguments *)

(** The configuration object the download methods destructure; a property
    the caller left out reads as [undefined]. *)
Record config : Type := mkConfig {
  videoUrl : JS.value;
  playlistUrl : JS.value;
  maxHeight : JS.value;
  outputPath : JS.value
}.

(** What a caller can pass where a configuration is expected. *)
Inductive argument : Type :=
| Prim (v : JS.value)
| Obj (c : config).

Definition no_properties : config :=
  mkConfig JS.undefined JS.undefined JS.undefined JS.undefined.

(** The parameter pattern [{ url, maxHeight, outputPath }]: [undefined] and
    [null] cannot be destructured, any other primitive has none of the
    properties. *)
Definition destructure (property : string) (a : argument) : settled config :=
  match a with
  | Obj c => Fulfilled c
  | Prim JS.undefined =>
      Rejected (JS.TypeError ("Cannot destructure property '" ++ property
                              ++ "' of 'undefined' as it is undefined."))
  | Prim JS.null =>
      Rejected (JS.TypeError ("Cannot destructure property '" ++ property
                              ++ "' of 'null' as it is null."))
  | Prim _ => Fulfilled no_properties
  end.

(** The fields of [this] that the methods read. *)
Record downloader : Type := mkDownloader {
  basePath : string;
  defaultOptions : string
}.

(** ** The constructors

    Every constructor sets [this.basePath] to
    [path.join(process.env.USERPROFILE || process.env.HOME, 'Downloads', dir)]
    and creates that directory unless [fs.existsSync] finds it
    (youtube-downloader.js, lines 8-13 and 276-281;
    youtube-playlist-downloader.js, lines 9-13 and 162-166).  What they read
    from the host: the two environment variables, the [path.join] of the
    platform, and the answers of the file system. *)
Record host : Type := mkHost {
  USERPROFILE : option string;
  HOME : option string;
  join : list string -> string;
  existsSync : string -> bool;
  mkdirSync : string -> option JS.error   (* what it throws, when it does *)
}.

(** [process.env.NAME]: a string, or [undefined] when the variable is not
    set. *)
Definition env (variable : option string) : JS.value :=
  match variable with
  | Some s => JS.str s
  | None => JS.undefined
  end.

(** [path.join] throws a [TypeError] on an argument that is not a string;
    the only such value [process.env.USERPROFILE || process.env.HOME] can
    be is [undefined]. *)
Definition deriveBasePath (h : host) (dir : string) : settled string :=
  match JS.or (env (USERPROFILE h)) (env (HOME h)) with
  | JS.str home =>
      let basePath := join h [home; "Downloads"; dir] in
      if negb (existsSync h basePath)
      then match mkdirSync h basePath with
           | Some thrown => Rejected thrown
           | None => Fulfilled basePath
           end
      else Fulfilled basePath
  | _ =>
      Rejected (JS.TypeError ("The " ++ dq ++ "path" ++ dq
                              ++ " argument must be of type string. Received undefined"))
  end.

(** ** downloadMultiplePlaylists

    The text of youtube-downloader.js, lines 33-54, and of
    youtube-playlist-downloader.js, lines 40-60 and 176-196.  The method
    calls [this.downloadPlaylist], which is the parameter here. *)

Inductive batch_argument : Type :=
| NotArray (v : JS.value)
| Array (items : list argument).

Definition isArray (playlists : batch_argument) : bool :=
  match playlists with
  | Array _ => true
  | NotArray _ => false
  end.

(** The elements, for an array. *)
Definition elements (playlists : batch_argument) : list argument :=
  match playlists with
  | Array items => items
  | NotArray _ => []
  end.

(** [.then(() => console.log(...)).catch(error => console.error(...))] *)
Definition completed (index : nat) : console_line :=
  log ("Playlist " ++ show_nat (index + 1) ++ " completed successfully").

Definition failed (index : nat) (e : JS.error) : console_line :=
  error ("Playlist " ++ show_nat (index + 1) ++ " failed: " ++ JS.message e).

Definition reactions (index : nat) (r : settled JS.value) : promise :=
  Tick (match r with
        | Fulfilled _ => Console (completed index) (Ret (Fulfilled JS.undefined))
        | Rejected e => Console (failed index e) (Ret (Fulfilled JS.undefined))
        end).

(** [playlists.map((playlist, index) => ...)] *)
Fixpoint downloadPromises (downloadPlaylist : argument -> promise)
  (index : nat) (playlists : list argument) : list promise :=
  match playlists with
  | [] => []
  | playlist :: rest =>
      bind (downloadPlaylist playlist) (reactions index)
        :: downloadPromises downloadPlaylist (S index) rest
  end.

Definition after_downloads : continuation :=
  fun outcome w =>
    match outcome with
    | Fulfilled _ =>
        (Fulfilled JS.undefined, do_print (log "All downloads completed!") w)
    | Rejected e =>
        (Rejected e,
         do_print (error ("Error in batch download: " ++ JS.message e)) w)
    end.

Definition downloadMultiplePlaylists (downloadPlaylist : argument -> promise)
  (playlists : batch_argument) (w : world) : loop :=
  if negb (isArray playlists) || (List.length (elements playlists) =? 0)%nat
  then
    mkLoop [] None
      (Returned (Rejected
         (JS.Error "Please provide an array of playlist configurations"))) w
  else
    await_all (downloadPromises downloadPlaylist 0 (elements playlists))
      after_downloads
      (do_print (log ("Starting download of "
                      ++ show_nat (List.length (elements playlists))
                      ++ " playlists...")) w).

(** ** checkDependencies and executeCommand

    The text of youtube-downloader.js, lines 170-190 and 297-317. *)

Fixpoint stdout_text (cs : list chunk) : string :=
  match cs with
  | [] => ""
  | stdout data :: cs' => data ++ stdout_text cs'
  | stderr _ :: cs' => stdout_text cs'
  end.

Fixpoint stderr_text (cs : list chunk) : string :=
  match cs with
  | [] => ""
  | stdout _ :: cs' => stderr_text cs'
  | stderr data :: cs' => data ++ stderr_text cs'
  end.

(** [exec(command, callback)] passes an error to its callback unless the
    process exited with code 0. *)
Definition succeeded (child : proc_run) : bool := code_is (exit child) 0.

(** The callback: [if (error) reject(error); else resolve(stdout);] *)
Definition callback (command : string) (child : proc_run) : settled JS.value :=
  if succeeded child
  then Fulfilled (JS.str (stdout_text (chunks child)))
  else Rejected (JS.Error ("Command failed: " ++ command ++ nl
                           ++ stderr_text (chunks child))).

Definition executeCommand (command : string) : promise :=
  Exec command (fun child => Ret (callback command child)).

Definition missing_dependencies : console_line :=
  error "Missing dependencies. Please install yt-dlp and ffmpeg".

Definition after_versions : continuation :=
  fun outcome w =>
    match outcome with
    | Fulfilled _ => (Fulfilled (JS.boolean true), w)
    | Rejected _ =>
        (Fulfilled (JS.boolean false), do_print missing_dependencies w)
    end.

Definition checkDependencies (w : world) : loop :=
  await_all [ executeCommand "yt-dlp --version";
              executeCommand "ffmpeg -version" ]
    after_versions w.

(** ** class YoutubeDownloader (youtube-downloader.js, lines 5-191) *)

Module YoutubeDownloader.

Definition options : string :=
  JS.join " " [ "--no-check-certificates"; "--geo-bypass";
                "--format-sort-force"; "--ignore-errors"; "--no-warnings";
                "--extractor-retries 3" ].

(** The object the constructor builds once it has the directory [base]. *)
Definition new (base : string) : downloader := mkDownloader base options.

(** [new YoutubeDownloader()] (lines 6-24) *)
Definition constructor (h : host) : settled downloader :=
  match deriveBasePath h "playlists" with
  | Fulfilled base => Fulfilled (new base)
  | Rejected thrown => Rejected thrown
  end.

(** *** downloadPlaylist (lines 63-97): one launch, no retry *)

Definition playlistFormatString (maxHeight : JS.value) : string :=
  if JS.truthy maxHeight
  then "bestvideo[height<=" ++ JS.toString maxHeight ++ "]+bestaudio/best"
  else "bestvideo+bestaudio/best".

Definition playlistCommand (this : downloader) (c : config) : string :=
  let downloadPath := JS.or (outputPath c) (JS.str (basePath this)) in
  let formatString := playlistFormatString (maxHeight c) in
  "yt-dlp -f " ++ dq ++ formatString ++ dq ++ " -o " ++ dq
    ++ JS.toString downloadPath
    ++ "/%(playlist_title)s/%(playlist_index)s - %(title)s.%(ext)s" ++ dq
    ++ " " ++ JS.toString (playlistUrl c).

(** Its ['data'] handlers only relay. *)
Fixpoint relay {A : Type} (cs : list chunk) (k : prog A) : prog A :=
  match cs with
  | [] => k
  | stdout data :: cs' => Console (log data) (relay cs' k)
  | stderr data :: cs' => Console (error data) (relay cs' k)
  end.

Definition downloadPlaylist (this : downloader) (a : argument)
  : prog (settled JS.value) :=
  match destructure "playlistUrl" a with
  | Rejected e => Ret (Rejected e)
  | Fulfilled c =>
      if negb (JS.truthy (playlistUrl c))
      then Ret (Rejected (JS.Error "Playlist URL is required"))
      else
        Exec (playlistCommand this c) (fun child =>
          relay (chunks child)
            (if code_is (exit child) 0
             then Ret (Fulfilled (JS.str "Download completed successfully"))
             else Ret (Rejected (JS.Error
                    ("Download failed with code " ++ show_code (exit child))))))
  end.

(** *** downloadSingleVideo (lines 107-165): retry with a fixed delay *)

Definition formatString (maxHeight : JS.value) : string :=
  if JS.truthy maxHeight
  then "bestvideo[height<=" ++ JS.toString maxHeight
         ++ "]+bestaudio/best[height<=" ++ JS.toString maxHeight ++ "]/best"
  else "bestvideo+bestaudio/best".

Definition command (this : downloader) (c : config) : string :=
  let downloadPath := JS.or (outputPath c) (JS.str (basePath this)) in
  "yt-dlp " ++ defaultOptions this ++ " -f " ++ dq
    ++ formatString (maxHeight c) ++ dq ++ " --output " ++ dq
    ++ JS.toString downloadPath ++ "/%(title)s.%(ext)s" ++ dq
    ++ " " ++ dq ++ JS.toString (videoUrl c) ++ dq.

(** The message built in the ['close'] handler (line 150). *)
Definition errorMessage (retryCount : nat) (code : option Z)
  (errorLog : string) : string :=
  "Download failed (attempt " ++ show_nat (retryCount + 1) ++ "/"
    ++ show_nat maxRetries ++ "):" ++ nl ++ "Exit code: " ++ show_code code
    ++ nl ++ "Error log: " ++ errorLog.

(** The [while (retryCount < maxRetries)] loop, lines 127-164. *)
Equations? retry_loop (command : string) (retryCount : nat)
  : prog (settled JS.value) by wf (maxRetries - retryCount) lt :=
  retry_loop command retryCount with lt_dec retryCount maxRetries := {
    | left _ =>
        Exec command (fun child =>
          on_data (chunks child) "" "" (fun outputLog errorLog =>
            if code_is (exit child) 0
            then Ret (Fulfilled (JS.str "Video download completed successfully"))
            else
              let thrown :=
                JS.Error (errorMessage retryCount (exit child) errorLog) in
              if (retryCount + 1 =? maxRetries)%nat
              then Ret (Rejected thrown)
              else
                Console (log ("Retry attempt " ++ show_nat (retryCount + 1)
                            ++ "/" ++ show_nat maxRetries ++ "..."))
                  (Sleep 2000 (retry_loop command (retryCount + 1)))));
    | right _ => Ret (Fulfilled JS.undefined) }.
Proof. change (maxRetries - (retryCount + 1) < maxRetries - retryCount). lia. Qed.

Definition downloadSingleVideo (this : downloader) (a : argument)
  : prog (settled JS.value) :=
  match destructure "videoUrl" a with
  | Rejected e => Ret (Rejected e)
  | Fulfilled c =>
      if negb (JS.truthy (videoUrl c))
      then Ret (Rejected (JS.Error "Video URL is required"))
      else
        Console (log ("Starting download for video: "
                    ++ JS.toString (videoUrl c)))
          (Console (log ("Debug: Executing command: " ++ command this c))
            (retry_loop (command this c) 0))
  end.

(** downloadMultiplePlaylists (lines 33-54) and checkDependencies
    (lines 170-181) *)
Definition downloadMultiplePlaylists (this : downloader) :=
  downloadMultiplePlaylists (downloadPlaylist this).

Definition checkDependencies := checkDependencies.

End YoutubeDownloader.

(** ** class YoutubeDownloaderBase (youtube-downloader.js, lines 273-318) *)

Module YoutubeDownloaderBase.

Definition options : string :=
  JS.join " " [ "--no-check-certificates"; "--geo-bypass";
                "--format-sort-force"; "--ignore-errors"; "--no-warnings";
                "--extractor-retries 3" ].

Definition new (base : string) : downloader := mkDownloader base options.

(** [new YoutubeDownloaderBase()] (lines 274-292) *)
Definition constructor (h : host) : settled downloader :=
  match deriveBasePath h "youtube-downloads" with
  | Fulfilled base => Fulfilled (new base)
  | Rejected thrown => Rejected thrown
  end.

Definition checkDependencies := checkDependencies.

End YoutubeDownloaderBase.

(** ** class YoutubeSingleDownloader (youtube-single-downloader.js)

    The strict single-video downloader.  It declares no constructor, so
    [new] runs that of the base class.  The text of its
    [downloadSingleVideo] (lines 12-67) is that of
    [YoutubeDownloader.downloadSingleVideo], comments apart, but this file
    never declares [exec]: its only [require] is that of the base class
    (line 1).  Evaluating [exec(command)] in the executor of the promise
    (line 35) throws a [ReferenceError]; the promise is rejected with it
    before any process exists, and the [catch] block (lines 58-65) counts the
    attempt as a failed one. *)

Module YoutubeSingleDownloader.

Definition new (base : string) : downloader := YoutubeDownloaderBase.new base.

Definition constructor (h : host) : settled downloader :=
  YoutubeDownloaderBase.constructor h.

Definition formatString (maxHeight : JS.value) : string :=
  if JS.truthy maxHeight
  then "bestvideo[height<=" ++ JS.toString maxHeight
         ++ "]+bestaudio/best[height<=" ++ JS.toString maxHeight ++ "]/best"
  else "bestvideo+bestaudio/best".

Definition command (this : downloader) (c : config) : string :=
  let downloadPath := JS.or (outputPath c) (JS.str (basePath this)) in
  "yt-dlp " ++ defaultOptions this ++ " -f " ++ dq
    ++ formatString (maxHeight c) ++ dq ++ " --output " ++ dq
    ++ JS.toString downloadPath ++ "/%(title)s.%(ext)s" ++ dq
    ++ " " ++ dq ++ JS.toString (videoUrl c) ++ dq.

(** What evaluating the undeclared [exec] throws. *)
Definition exec_is_not_defined : JS.error :=
  JS.ReferenceError "exec is not defined".

(** The [while (retryCount < maxRetries)] loop, lines 32-66: the [try]
    block throws at line 35 in every iteration. *)
Equations? strict_loop (retryCount : nat)
  : prog (settled JS.value) by wf (maxRetries - retryCount) lt :=
  strict_loop retryCount with lt_dec retryCount maxRetries := {
    | left _ =>
        let thrown := exec_is_not_defined in
        if (retryCount + 1 =? maxRetries)%nat
        then Ret (Rejected thrown)
        else
          Console (log ("Retry attempt " ++ show_nat (retryCount + 1)
                      ++ "/" ++ show_nat maxRetries ++ "..."))
            (Sleep 2000 (strict_loop (retryCount + 1)));
    | right _ => Ret (Fulfilled JS.undefined) }.
Proof. change (maxRetries - (retryCount + 1) < maxRetries - retryCount). lia. Qed.

Definition downloadSingleVideo (this : downloader) (a : argument)
  : prog (settled JS.value) :=
  match destructure "videoUrl" a with
  | Rejected e => Ret (Rejected e)
  | Fulfilled c =>
      if negb (JS.truthy (videoUrl c))
      then Ret (Rejected (JS.Error "Video URL is required"))
      else
        Console (log ("Starting download for video: "
                    ++ JS.toString (videoUrl c)))
          (Console (log ("Debug: Executing command: " ++ command this c))
            (strict_loop 0))
  end.

End YoutubeSingleDownloader.

(** ** The hardened retry loop

    [while (retryCount < maxRetries)] of youtube-downloader.js, lines
    373-407, and of youtube-playlist-downloader.js, lines 87-121.  The two
    texts differ in the message they resolve with and in nothing else. *)

Definition hardenedMessage (code : option Z) (errorLog : string) : string :=
  "Download failed with code " ++ show_code code ++ nl
    ++ "Error log: " ++ errorLog.

Equations? hardened_loop (resolved command : string) (retryCount : nat)
  : prog (settled JS.value) by wf (maxRetries - retryCount) lt :=
  hardened_loop resolved command retryCount
    with lt_dec retryCount maxRetries := {
    | left _ =>
        Exec command (fun child =>
          on_data (chunks child) "" "" (fun outputLog errorLog =>
            if code_is (exit child) 0 || code_is (exit child) 1
            then Ret (Fulfilled (JS.str resolved))
            else
              let thrown :=
                JS.Error (hardenedMessage (exit child) errorLog) in
              Console (log ("Retry attempt " ++ show_nat (retryCount + 1)
                          ++ "/" ++ show_nat maxRetries ++ "..."))
                (if (retryCount + 1 =? maxRetries)%nat
                 then Ret (Rejected thrown)
                 else
                   Sleep (5000 * Z.of_nat (retryCount + 1))
                     (hardened_loop resolved command (retryCount + 1)))));
    | right _ => Ret (Fulfilled JS.undefined) }.
Proof. change (maxRetries - (retryCount + 1) < maxRetries - retryCount). lia. Qed.

(** ** class YoutubeSingleDownloader, hardened copy
       (youtube-downloader.js, lines 323-409) *)

Module HardenedSingleDownloader.

Definition options : string :=
  JS.join " " [ "--no-check-certificates"; "--geo-bypass";
                "--format-sort-force"; "--ignore-errors"; "--no-warnings";
                "--extractor-retries 3";
                "--user-agent " ++ dq ++ "Mozilla/5.0 (Windows NT 10.0; Win64; x64) AppleWebKit/537.36 (KHTML, like Gecko) Chrome/120.0.0.0 Safari/537.36" ++ dq;
                "--add-header " ++ dq ++ "Accept-Language: en-US,en;q=0.9" ++ dq;
                "--sleep-interval 2"; "--max-sleep-interval 4";
                "--fragment-retries 10"; "--force-ipv4"; "--no-playlist";
                "--merge-output-format mp4" ].

Definition new (base : string) : downloader := mkDownloader base options.

(** [super()], then the options are replaced (lines 324-343). *)
Definition constructor (h : host) : settled downloader :=
  match YoutubeDownloaderBase.constructor h with
  | Fulfilled inherited => Fulfilled (new (basePath inherited))
  | Rejected thrown => Rejected thrown
  end.

Definition formatString (maxHeight : JS.value) : string :=
  if JS.truthy maxHeight
  then "bestvideo[height<=" ++ JS.toString maxHeight
         ++ "]+bestaudio/best[height<=" ++ JS.toString maxHeight ++ "]/best"
  else "bestvideo+bestaudio/best".

Definition command (this : downloader) (c : config) : string :=
  let downloadPath := JS.or (outputPath c) (JS.str (basePath this)) in
  "yt-dlp " ++ defaultOptions this ++ " -f " ++ dq
    ++ formatString (maxHeight c) ++ dq ++ " --output " ++ dq
    ++ JS.toString downloadPath ++ "/%(title)s.%(ext)s" ++ dq
    ++ " " ++ dq ++ JS.toString (videoUrl c) ++ dq.

Definition downloadSingleVideo (this : downloader) (a : argument)
  : prog (settled JS.value) :=
  match destructure "videoUrl" a with
  | Rejected e => Ret (Rejected e)
  | Fulfilled c =>
      if negb (JS.truthy (videoUrl c))
      then Ret (Rejected (JS.Error "Video URL is required"))
      else
        Console (log ("Starting download for video: "
                    ++ JS.toString (videoUrl c)))
          (Console (log ("Debug: Starting download with command: "
                       ++ command this c))
            (hardened_loop "Download completed successfully"
               (command this c) 0))
  end.

End HardenedSingleDownloader.

(** ** class YoutubePlaylistDownloader
       (youtube-playlist-downloader.js, lines 6-123) *)

Module YoutubePlaylistDownloader.

Definition options : string :=
  JS.join " " [ "--no-check-certificates"; "--geo-bypass";
                "--format-sort-force"; "--ignore-errors"; "--no-warnings";
                "--extractor-retries 3"; "--cookies-from-browser chrome";
                "--user-agent " ++ dq ++ "Mozilla/5.0 (Windows NT 10.0; Win64; x64) AppleWebKit/537.36 (KHTML, like Gecko) Chrome/91.0.4472.124 Safari/537.36" ++ dq;
                "--add-header " ++ dq ++ "Accept-Language: en-US,en;q=0.9" ++ dq;
                "--sleep-interval 5"; "--max-sleep-interval 10";
                "--fragment-retries 10"; "--force-ipv4" ].

Definition new (base : string) : downloader := mkDownloader base options.

(** [super()], then [basePath] is derived again, for the directory
    'playlists', and the options are replaced (lines 7-31). *)
Definition constructor (h : host) : settled downloader :=
  match YoutubeDownloaderBase.constructor h with
  | Fulfilled _ =>
      match deriveBasePath h "playlists" with
      | Fulfilled base => Fulfilled (new base)
      | Rejected thrown => Rejected thrown
      end
  | Rejected thrown => Rejected thrown
  end.

Definition formatString (maxHeight : JS.value) : string :=
  if JS.truthy maxHeight
  then "bestvideo[height<=" ++ JS.toString maxHeight
         ++ "]+bestaudio/best[height<=" ++ JS.toString maxHeight ++ "]/best"
  else "bestvideo+bestaudio/best".

Definition command (this : downloader) (c : config) : string :=
  let downloadPath := JS.or (outputPath c) (JS.str (basePath this)) in
  "yt-dlp " ++ defaultOptions this ++ " -f " ++ dq
    ++ formatString (maxHeight c) ++ dq ++ " -o " ++ dq
    ++ JS.toString downloadPath
    ++ "/%(playlist_title)s/%(playlist_index)s - %(title)s.%(ext)s" ++ dq
    ++ " " ++ dq ++ JS.toString (playlistUrl c) ++ dq.

Definition downloadPlaylist (this : downloader) (a : argument)
  : prog (settled JS.value) :=
  match destructure "playlistUrl" a with
  | Rejected e => Ret (Rejected e)
  | Fulfilled c =>
      if negb (JS.truthy (playlistUrl c))
      then Ret (Rejected (JS.Error "Playlist URL is required"))
      else
        Console (log ("Debug: Starting download with command: "
                    ++ command this c))
          (hardened_loop "Download completed with some videos"
             (command this c) 0)
  end.

(** downloadMultiplePlaylists (lines 40-60) *)
Definition downloadMultiplePlaylists (this : downloader) :=
  downloadMultiplePlaylists (downloadPlaylist this).

End YoutubePlaylistDownloader.

(** ** class YoutubePlaylistDownloader, first generation
       (youtube-playlist-downloader.js, lines 159-238)

    Its [downloadPlaylist] (lines 205-237) has the text of
    [YoutubeDownloader.downloadPlaylist]; the options are the base class's. *)

Module LegacyPlaylistDownloader.

Definition new (base : string) : downloader := YoutubeDownloaderBase.new base.

(** [super()], then [basePath] is derived again, for the directory
    'playlists' (lines 160-167). *)
Definition constructor (h : host) : settled downloader :=
  match YoutubeDownloaderBase.constructor h with
  | Fulfilled _ =>
      match deriveBasePath h "playlists" with
      | Fulfilled base => Fulfilled (new base)
      | Rejected thrown => Rejected thrown
      end
  | Rejected thrown => Rejected thrown
  end.

Definition playlistFormatString := YoutubeDownloader.playlistFormatString.
Definition downloadPlaylist := YoutubeDownloader.downloadPlaylist.
Definition downloadMultiplePlaylists (this : downloader) :=
  downloadMultiplePlaylists (downloadPlaylist this).

End LegacyPlaylistDownloader.

(** * Definitions used by the statements *)

(** The process that a call started in [w] launches after [i] others. *)
Definition nth_run (launcher : nat -> proc_run) (w : world) (i : nat)
  : proc_run :=
  launcher (List.length (launched w) + i).

(** What the ['data'] handlers print for the chunks of one process. *)
Definition relayed (cs : list chunk) : list console_line :=
  List.map (fun c => match c with
                     | stdout data => log data
                     | stderr data => error data
                     end) cs.

Definition print_all (ls : list console_line) (w : world) : world :=
  mkWorld (launched w) (timers w) (console w ++ ls).

(** At most [n] launches lie on any path of [p]. *)
Fixpoint launches_le {A : Type} (n : nat) (p : prog A) : Prop :=
  match p with
  | Ret _ => True
  | Exec _ k =>
      match n with
      | O => False
      | S n' => forall child, launches_le n' (k child)
      end
  | Sleep _ k | Console _ k | Tick k => launches_le n k
  end.

(** Concrete inputs for the statements below. *)
Definition a_video : config :=
  mkConfig (JS.str "https://www.youtube.com/watch?v=9e3D5Ed4rRs") JS.undefined
           (JS.number 360) JS.undefined.

Definition a_playlist : config :=
  mkConfig JS.undefined
    (JS.str "https://www.youtube.com/playlist?list=PLFLYQXBx1eBnq7bHJUkdH_C_rOXM17mLw")
    (JS.number 720) JS.undefined.

Definition exits (code : Z) : nat -> proc_run :=
  fun _ => mkRun [stderr "ERROR: unable to download"] (Some code).

Definition no_url : config :=
  mkConfig JS.undefined (JS.str "") (JS.number 720) JS.undefined.

(** Three processes that write different text to stderr. *)
Definition noisy (n : nat) : proc_run :=
  match n with
  | 0 => mkRun [stderr "first attempt"] (Some 2%Z)
  | 1 => mkRun [stderr "second "; stdout "progress"; stderr "attempt"] (Some 3%Z)
  | _ => mkRun [stderr "third "; stderr "attempt"] (Some 4%Z)
  end.

Definition height_zero : config :=
  mkConfig (JS.str "https://www.youtube.com/watch?v=9e3D5Ed4rRs")
    (JS.str "https://www.youtube.com/playlist?list=PLFLYQXBx1eBnq7bHJUkdH_C_rOXM17mLw")
    (JS.number 0) JS.undefined.

(** The task of a version query, pending or settled. *)
Definition version_task (launcher : nat -> proc_run) (command : string)
  (pid : nat) (done : bool) : task :=
  if done
  then Settled (callback command (launcher pid))
  else OnClose pid (fun child => Ret (callback command child)).

(** What holds of every state [checkDependencies] can reach from [w]:
    the two queries are pending or settled, [Promise.all] has seen a
    rejection exactly when a settled query failed, and a caller that has
    returned did so with the right value and diagnostic. *)
Definition versions_inv (launcher : nat -> proc_run) (w : world) (st : loop)
  : Prop :=
  let yt_dlp := launcher (List.length (launched w)) in
  let ffmpeg := nth_run launcher w 1 in
  exists d1 d2 : bool,
    tasks st
    = [ version_task launcher "yt-dlp --version" (List.length (launched w)) d1;
        version_task launcher "ffmpeg -version" (List.length (launched w) + 1)
          d2 ]
    /\ (rejection st = None
        <-> (d1 = true -> succeeded yt_dlp = true)
            /\ (d2 = true -> succeeded ffmpeg = true))
    /\ launched (trace st)
       = (launched w ++ ["yt-dlp --version"; "ffmpeg -version"])%list
    /\ match caller_state st with
       | Awaiting k => k = after_versions /\ console (trace st) = console w
       | Returned r =>
           (r = Fulfilled (JS.boolean true)
            /\ succeeded yt_dlp && succeeded ffmpeg = true
            /\ console (trace st) = console w)
           \/ (r = Fulfilled (JS.boolean false)
               /\ succeeded yt_dlp && succeeded ffmpeg = false
               /\ console (trace st)
                  = (console w ++ [missing_dependencies])%list)
       end.

(** The mux tool is missing, and its failure is the first event. *)
Definition ffmpeg_missing (pid : nat) : proc_run :=
  match pid with
  | 0 => mkRun [stdout "2024.08.06"] (Some 0%Z)
  | _ => mkRun [stderr "ffmpeg: not found"] (Some 127%Z)
  end.

(** The line the reactions of item [index] print. *)
Definition report (index : nat) (l : console_line) : Prop :=
  l = completed index \/ exists e, l = failed index e.

(** Every path of [p] ends by printing the report of item [index] and
    fulfilling. *)
Fixpoint reports (index : nat) (p : promise) : Prop :=
  match p with
  | Ret _ => False
  | Exec _ k => forall child, reports index (k child)
  | Sleep _ k | Tick k => reports index k
  | Console l k =>
      (report index l /\ k = Ret (Fulfilled JS.undefined)) \/ reports index k
  end.

Definition task_ok (index : nat) (t : task) (w : world) : Prop :=
  match t with
  | Settled r =>
      r = Fulfilled JS.undefined
      /\ exists l, report index l /\ In l (console w)
  | OnClose _ k => forall child, reports index (k child)
  | OnTimer k | OnTick k => reports index k
  end.

Fixpoint tasks_ok (index : nat) (ts : list task) (w : world) : Prop :=
  match ts with
  | [] => True
  | t :: ts' => task_ok index t w /\ tasks_ok (S index) ts' w
  end.

Definition is_settled (t : task) : Prop := exists r, t = Settled r.

Definition batch_inv (n : nat) (st : loop) : Prop :=
  List.length (tasks st) = n
  /\ tasks_ok 0 (tasks st) (trace st)
  /\ rejection st = None
  /\ (caller_state st = Awaiting after_downloads
      \/ (caller_state st = Returned (Fulfilled JS.undefined)
          /\ Forall is_settled (tasks st))).

(** At most [n] suspension points lie on any path of [p]. *)
Fixpoint wakes_le (n : nat) (p : promise) : Prop :=
  match p with
  | Ret _ => True
  | Console _ k => wakes_le n k
  | Exec _ k =>
      match n with
      | O => False
      | S n' => forall child, wakes_le n' (k child)
      end
  | Sleep _ k | Tick k =>
      match n with
      | O => False
      | S n' => wakes_le n' k
      end
  end.





(** Three playlists; the second one fails on every attempt. *)
Definition second_fails (pid : nat) : proc_run :=
  match pid with
  | 1 | 3 | 4 => mkRun [stderr "ERROR: unable to download"] (Some 2%Z)
  | _ => mkRun [stdout "[download] 100%"] (Some 0%Z)
  end.

Definition three_playlists : list argument :=
  [Obj a_playlist; Obj a_playlist; Obj a_playlist].

Definition one_schedule : list event :=
  [ Wake 0 Close; Wake 2 Close; Wake 1 Close; Wake 0 Reaction; Wake 1 Timer;
    Wake 2 Reaction; Wake 1 Close; Wake 1 Timer; Wake 1 Close;
    Wake 1 Reaction; Resume ].

(** * The callers *)

(** How a [main] ends: it returns (the process then ends with code 0), it
    calls [process.exit(code)], or its promise rejects. *)
Inductive ending : Type :=
| Returns
| Exits (code : Z)
| Uncaught (e : JS.error).

(** ** The loop of [main] over the videos

    [try { for (const video of videosToDownload) { ... } ... } catch ...] of
    youtube-single-downloader.js, lines 94-105, and of youtube-downloader.js,
    lines 434-444.  The list holds object literals; [downloader]'s method is
    the parameter. *)
Fixpoint download_each (downloadSingleVideo : argument -> promise)
  (videosToDownload : list config) : prog ending :=
  match videosToDownload with
  | [] => Console (log "All videos downloaded successfully!") (Ret Returns)
  | video :: rest =>
      Console (log ("Starting download for: " ++ JS.toString (videoUrl video)))
        (bind (downloadSingleVideo (Obj video)) (fun outcome =>
           match outcome with
           | Fulfilled _ =>
               Console (log ("Completed download for: "
                             ++ JS.toString (videoUrl video)))
                 (download_each downloadSingleVideo rest)
           | Rejected e =>
               Console (error ("Download failed: " ++ JS.message e))
                 (Ret (Exits 1))
           end))
  end.

(** ** [main] of the playlist downloaders

    youtube-playlist-downloader.js, lines 126-148 and 241-271: construct
    the downloader, await [checkDependencies], then await
    [downloadMultiplePlaylists] on the list [main] holds.  The constructor is
    called outside the [try] block, so what it throws rejects the promise of
    [main].  [main] is in one of three states; [Continue] is the moment the
    awaited call hands its outcome back.  A version query that is
    still pending when [checkDependencies] returns has nothing left to do
    but settle a promise nobody reads, so it is not carried on. *)
Inductive main_state : Type :=
| Checking (l : loop)
| Downloading (l : loop)
| Ended (e : ending) (w : world).

Inductive main_event : Type :=
| Inner (ev : event)
| Continue.

Definition please_install : console_line :=
  log "Please install required dependencies and try again".

(** [constructed] is the outcome of [new YoutubePlaylistDownloader()]
    (lines 127 and 242). *)
Definition main_start (constructed : settled downloader) (w : world)
  : main_state :=
  match constructed with
  | Fulfilled _ => Checking (checkDependencies w)
  | Rejected thrown => Ended (Uncaught thrown) w
  end.

Definition main_step (downloadPlaylist : argument -> promise)
  (playlistsToDownload : batch_argument) (launcher : nat -> proc_run)
  (ev : main_event) (s : main_state) : option main_state :=
  match s, ev with
  | Checking l, Inner e => option_map Checking (step launcher e l)
  | Checking l, Continue =>
      match caller_state l with
      | Returned (Fulfilled dependenciesInstalled) =>
          if negb (JS.truthy dependenciesInstalled)
          then Some (Ended Returns (do_print please_install (trace l)))
          else Some (Downloading
                       (downloadMultiplePlaylists downloadPlaylist
                          playlistsToDownload (trace l)))
      | Returned (Rejected e) => Some (Ended (Uncaught e) (trace l))
      | Awaiting _ => None
      end
  | Downloading l, Inner e => option_map Downloading (step launcher e l)
  | Downloading l, Continue =>
      match caller_state l with
      | Returned (Fulfilled _) => Some (Ended Returns (trace l))
      | Returned (Rejected e) =>
          Some (Ended (Exits 1)
                  (do_print (error ("Download failed: " ++ JS.message e))
                     (trace l)))
      | Awaiting _ => None
      end
  | Ended _ _, _ => None
  end.

Fixpoint main_run (downloadPlaylist : argument -> promise)
  (playlistsToDownload : batch_argument) (launcher : nat -> proc_run)
  (evs : list main_event) (s : main_state) : option main_state :=
  match evs with
  | [] => Some s
  | ev :: evs' =>
      match main_step downloadPlaylist playlistsToDownload launcher ev s with
      | Some s' =>
          main_run downloadPlaylist playlistsToDownload launcher evs' s'
      | None => None
      end
  end.

(** The trace of a state of [main]. *)
Definition main_trace (s : main_state) : world :=
  match s with
  | Checking l | Downloading l => trace l
  | Ended _ w => w
  end.

(** The list [main] of youtube-playlist-downloader.js holds (lines 135-140). *)
Definition playlistsToDownload : batch_argument :=
  Array [ Obj (mkConfig JS.undefined
                 (JS.str "https://www.youtube.com/playlist?list=PLFLYQXBx1eBnq7bHJUkdH_C_rOXM17mLw")
                 (JS.number 720) JS.undefined) ].

(** * Further definitions used by the statements *)

(** The delays of the hardened loop before attempts 2 .. [n]. *)
Definition hardened_delays (n : nat) : list Z :=
  List.map (fun attempt => (5000 * Z.of_nat attempt)%Z) (List.seq 1 (n - 1)).

(** What a process's chunks leave on the console, somewhere in [w]. *)
Definition relays (w : world) (child : proc_run) : Prop :=
  exists before after,
    console w = (before ++ relayed (chunks child) ++ after)%list.

(** The exit codes the hardened loop accepts. *)
Definition accepted (child : proc_run) : bool :=
  code_is (exit child) 0 || code_is (exit child) 1.

(** The launches a pending task can still make are at most [n]. *)
Definition task_launches_le (n : nat) (t : task) : Prop :=
  match t with
  | Settled _ => True
  | OnClose _ k => forall child, launches_le n (k child)
  | OnTimer k | OnTick k => launches_le n k
  end.

Fixpoint launch_budgets (bs : list nat) (ts : list task) : Prop :=
  match bs, ts with
  | [], [] => True
  | b :: bs', t :: ts' => task_launches_le b t /\ launch_budgets bs' ts'
  | _, _ => False
  end.

(** The items of a batch that pass the URL check, as configurations. *)
Fixpoint with_url (items : list argument) : list config :=
  match items with
  | [] => []
  | Obj c :: rest =>
      if JS.truthy (playlistUrl c) then c :: with_url rest else with_url rest
  | Prim _ :: rest => with_url rest
  end.


(** The first process fails, the second one succeeds. *)
Definition fails_once (pid : nat) : proc_run :=
  match pid with
  | 0 => mkRun [stderr "HTTP Error 429"] (Some 2%Z)
  | _ => mkRun [stdout "[download] 100%"] (Some 0%Z)
  end.

(** What a retry loop that started in [w] and stopped in [w'] after [n]
    attempts has done: [n] launches of the one command, the delays between
    them, no accepted exit before the last attempt, and every process's
    chunks relayed. *)
Definition attempts_made (launcher : nat -> proc_run) (command : string)
  (ok : proc_run -> bool) (w w' : world) (n : nat) (delays : list Z) : Prop :=
  launched w' = (launched w ++ List.repeat command n)%list
  /\ timers w' = (timers w ++ delays)%list
  /\ (forall i, i < n - 1 -> ok (nth_run launcher w i) = false)
  /\ (forall i, i < n -> relays w' (nth_run launcher w i)).

(** The launches and the timers of a history, in their order; the lines
    of output are left out. *)
Definition attempts_and_delays (h : list effect) : list effect :=
  List.filter (fun e => match e with
                        | Output _ => false
                        | Launch _ | Wait _ => true
                        end) h.

(** Attempts of one command with a delay between each attempt and the
    next: a launch, then, for every delay of the list, a timer of that
    delay followed by the next launch. *)
Fixpoint delayed (command : string) (delays : list Z) : list effect :=
  match delays with
  | [] => []
  | ms :: rest => Wait ms :: Launch command :: delayed command rest
  end.

Definition spaced (command : string) (delays : list Z) : list effect :=
  Launch command :: delayed command delays.

(** The projections of a history on the three lists of a [world]. *)
Fixpoint launches (h : list effect) : list string :=
  match h with
  | [] => []
  | Launch c :: h' => c :: launches h'
  | _ :: h' => launches h'
  end.

Fixpoint waits (h : list effect) : list Z :=
  match h with
  | [] => []
  | Wait ms :: h' => ms :: waits h'
  | _ :: h' => waits h'
  end.

Fixpoint outputs (h : list effect) : list console_line :=
  match h with
  | [] => []
  | Output l :: h' => l :: outputs h'
  | _ :: h' => outputs h'
  end.

(** Two hosts: one with a home directory in which everything exists, one
    with neither variable set. *)
Definition a_host : host :=
  mkHost None (Some "/home/user") (JS.join "/") (fun _ => true) (fun _ => None).

Definition no_home : host :=
  mkHost None None (JS.join "/") (fun _ => false) (fun _ => None).

(** The list [main] of youtube-single-downloader.js holds (lines 82-92). *)
Definition videosToDownload : list config :=
  [ mkConfig (JS.str "https://www.youtube.com/watch?v=VIDEO_ID_1") JS.undefined
      (JS.number 720) JS.undefined;
    mkConfig (JS.str "https://www.youtube.com/watch?v=VIDEO_ID_2") JS.undefined
      (JS.number 1080) JS.undefined ].

(** Every download fails; the version queries succeed. *)
Definition downloads_fail (pid : nat) : proc_run :=
  match pid with
  | 0 | 1 => mkRun [stdout "2024.08.06"] (Some 0%Z)
  | _ => mkRun [stderr "ERROR: unable to download"] (Some 2%Z)
  end.

(** A schedule of [main] in which the one playlist exhausts its retries. *)
Definition main_schedule : list main_event :=
  [ Inner (Wake 0 Close); Inner (Wake 1 Close); Inner Resume; Continue;
    Inner (Wake 0 Close); Inner (Wake 0 Timer); Inner (Wake 0 Close);
    Inner (Wake 0 Timer); Inner (Wake 0 Close); Inner (Wake 0 Reaction);
    Inner Resume; Continue ].

(** What holds of every state of [main] started in [w] on a non-empty array
    of [n] playlists, once the downloader is constructed. *)
Definition main_inv (launcher : nat -> proc_run) (w : world) (n : nat)
  (s : main_state) : Prop :=
  match s with
  | Checking l => versions_inv launcher w l
  | Downloading l => batch_inv n l
  | Ended e _ => e = Returns
  end.

(** What holds of every state of [main] started in [w] when a version
    query fails, once the downloader is constructed. *)
Definition stopped_inv (launcher : nat -> proc_run) (w : world)
  (s : main_state) : Prop :=
  match s with
  | Checking l => versions_inv launcher w l
  | Downloading _ => False
  | Ended e w' =>
      e = Returns
      /\ launched w'
         = (launched w ++ ["yt-dlp --version"; "ffmpeg -version"])%list
      /\ console w'
         = (console w ++ [missing_dependencies; please_install])%list
  end.

(** [checkDependencies] has not returned, or has returned [true] only with
    both queries settled. *)
Definition true_is_late (st : loop) : Prop :=
  match caller_state st with
  | Awaiting k => k = after_versions
  | Returned r => r = Fulfilled (JS.boolean true) -> Forall is_settled (tasks st)
  end.

(** ** The command line of youtube-downloader.js (lines 194-269)

    [switch (command)] starts [downloadSingle] or [downloadPlaylist], or
    prints the usage.  Both functions begin with [new YoutubeDownloader()]
    (lines 195 and 221), outside their [try] block, so what the constructor
    throws rejects their promise.  [downloadSingle] passes [singleVideo] to
    [downloadSingleVideo]; the declaration of [singleVideo] is commented
    out (lines 205-208), so evaluating the argument throws a
    [ReferenceError] inside the [try] block. *)
Inductive cli_state : Type :=
| SingleChecking (l : loop)
| PlaylistChecking (l : loop)
| PlaylistDownloading (l : loop)
| CliEnded (e : ending) (w : world).

Definition usage : string :=
  nl ++ "Usage: node youtube-downloader.js <command>" ++ nl
    ++ nl
    ++ "Commands:" ++ nl
    ++ "  single    Download a single video" ++ nl
    ++ "  playlist  Download playlist(s)" ++ nl
    ++ nl
    ++ "Examples:" ++ nl
    ++ "  node youtube-downloader.js single" ++ nl
    ++ "  node youtube-downloader.js playlist" ++ nl
    ++ "        ".

(** [command] is [process.argv[2]]: a string, or [undefined]. *)
Definition cli_start (command : JS.value) (h : host) (w : world) : cli_state :=
  match command with
  | JS.str c =>
      if (c =? "single")%string
      then match YoutubeDownloader.constructor h with
           | Fulfilled _ => SingleChecking (checkDependencies w)
           | Rejected thrown => CliEnded (Uncaught thrown) w
           end
      else if (c =? "playlist")%string
           then match YoutubeDownloader.constructor h with
                | Fulfilled _ => PlaylistChecking (checkDependencies w)
                | Rejected thrown => CliEnded (Uncaught thrown) w
                end
           else CliEnded Returns (do_print (log usage) w)
  | _ => CliEnded Returns (do_print (log usage) w)
  end.

(** The message of the [ReferenceError]. *)
Definition singleVideo_is_not_defined : string := "singleVideo is not defined".

(** The list [downloadPlaylist] holds (lines 230-236). *)
Definition cli_playlists : batch_argument :=
  Array [ Obj (mkConfig JS.undefined
                 (JS.str "https://www.youtube.com/playlist?list=PLOuGMjEXHeeDa-NZ_Y3-fKuIN9rRTzD5G")
                 (JS.number 720) JS.undefined) ].

Definition cli_step (this : downloader) (launcher : nat -> proc_run)
  (ev : main_event) (s : cli_state) : option cli_state :=
  match s, ev with
  | SingleChecking l, Inner e => option_map SingleChecking (step launcher e l)
  | SingleChecking l, Continue =>
      match caller_state l with
      | Returned (Fulfilled dependenciesInstalled) =>
          if negb (JS.truthy dependenciesInstalled)
          then Some (CliEnded Returns (do_print please_install (trace l)))
          else
            Some (CliEnded (Exits 1)
                    (do_print (error ("Download failed with details: "
                                      ++ singleVideo_is_not_defined))
                       (do_print (log "Starting single video download...")
                          (trace l))))
      | Returned (Rejected e) => Some (CliEnded (Uncaught e) (trace l))
      | Awaiting _ => None
      end
  | PlaylistChecking l, Inner e =>
      option_map PlaylistChecking (step launcher e l)
  | PlaylistChecking l, Continue =>
      match caller_state l with
      | Returned (Fulfilled dependenciesInstalled) =>
          if negb (JS.truthy dependenciesInstalled)
          then Some (CliEnded Returns (do_print please_install (trace l)))
          else
            Some (PlaylistDownloading
                    (YoutubeDownloader.downloadMultiplePlaylists this
                       cli_playlists
                       (do_print (log "Starting playlist downloads...")
                          (trace l))))
      | Returned (Rejected e) => Some (CliEnded (Uncaught e) (trace l))
      | Awaiting _ => None
      end
  | PlaylistDownloading l, Inner e =>
      option_map PlaylistDownloading (step launcher e l)
  | PlaylistDownloading l, Continue =>
      match caller_state l with
      | Returned (Fulfilled _) => Some (CliEnded Returns (trace l))
      | Returned (Rejected e) =>
          Some (CliEnded (Exits 1)
                  (do_print (error ("Download failed with details: "
                                    ++ JS.message e)) (trace l)))
      | Awaiting _ => None
      end
  | CliEnded _ _, _ => None
  end.

Fixpoint cli_run (this : downloader) (launcher : nat -> proc_run)
  (evs : list main_event) (s : cli_state) : option cli_state :=
  match evs with
  | [] => Some s
  | ev :: evs' =>
      match cli_step this launcher ev s with
      | Some s' => cli_run this launcher evs' s'
      | None => None
      end
  end.

Definition cli_trace (s : cli_state) : world :=
  match s with
  | SingleChecking l | PlaylistChecking l | PlaylistDownloading l => trace l
  | CliEnded _ w => w
  end.

(** What holds of every state of the [single] command started in [w],
    once the downloader is constructed. *)
Definition single_inv (launcher : nat -> proc_run) (w : world)
  (s : cli_state) : Prop :=
  match s with
  | SingleChecking l => versions_inv launcher w l
  | PlaylistChecking _ | PlaylistDownloading _ => False
  | CliEnded e w' =>
      launched w' = (launched w ++ ["yt-dlp --version"; "ffmpeg -version"])%list
      /\ ((succeeded (launcher (List.length (launched w)))
           && succeeded (nth_run launcher w 1) = false
           /\ e = Returns
           /\ console w'
              = (console w ++ [missing_dependencies; please_install])%list)
          \/ (succeeded (launcher (List.length (launched w)))
              && succeeded (nth_run launcher w 1) = true
              /\ e = Exits 1
              /\ console w'
                 = (console w
                    ++ [ log "Starting single video download...";
                         error "Download failed with details: singleVideo is not defined" ])%list))
  end.

(** What holds of every state of the [playlist] command started in [w],
    once the downloader is constructed. *)
Definition playlist_inv (launcher : nat -> proc_run) (w : world)
  (s : cli_state) : Prop :=
  match s with
  | SingleChecking _ => False
  | PlaylistChecking l => versions_inv launcher w l
  | PlaylistDownloading l => batch_inv 1 l
  | CliEnded e _ => e = Returns
  end.

(** Both tools answer; the download fails on every attempt. *)
Definition cli_schedule : list main_event :=
  [ Inner (Wake 1 Close); Inner (Wake 0 Close); Inner Resume; Continue ].

(** * Properties *)

(** ** Strings and traces *)

Lemma append_assoc (a b c : string) : (a ++ b) ++ c = a ++ (b ++ c).
Proof. induction a as [|x a IH]; simpl; [reflexivity | now rewrite IH]. Qed.

Lemma print_all_nil w : print_all [] w = w.
Proof. destruct w; unfold print_all; simpl. now rewrite app_nil_r. Qed.

Lemma append_nil_r (a : string) : a ++ "" = a.
Proof. induction a as [|x a IH]; simpl; [reflexivity | now rewrite IH]. Qed.

Lemma run_on_data {A} launcher (cs : list chunk) :
  forall outputLog errorLog (k : string -> string -> prog A) w,
    run launcher (on_data cs outputLog errorLog k) w
    = run launcher (k (outputLog ++ stdout_text cs) (errorLog ++ stderr_text cs))
        (print_all (relayed cs) w).
Proof.
  induction cs as [|[data|data] cs IH]; intros outputLog errorLog k w; simpl.
  - now rewrite print_all_nil, !append_nil_r.
  - rewrite IH, append_assoc. f_equal.
    unfold print_all, do_print; simpl. now rewrite <- app_assoc.
  - rewrite IH, append_assoc. f_equal.
    unfold print_all, do_print; simpl. now rewrite <- app_assoc.
Qed.

(** ** The retry loops, one iteration at a time *)

Lemma retry_loop_step (command : string) (retryCount : nat) :
  retryCount < maxRetries ->
  YoutubeDownloader.retry_loop command retryCount
  = Exec command (fun child =>
      on_data (chunks child) "" "" (fun outputLog errorLog =>
        if code_is (exit child) 0
        then Ret (Fulfilled (JS.str "Video download completed successfully"))
        else
          if (retryCount + 1 =? maxRetries)%nat
          then Ret (Rejected (JS.Error
                 (YoutubeDownloader.errorMessage retryCount (exit child) errorLog)))
          else
            Console (log ("Retry attempt " ++ show_nat (retryCount + 1)
                        ++ "/" ++ show_nat maxRetries ++ "..."))
              (Sleep 2000 (YoutubeDownloader.retry_loop command (retryCount + 1))))).
Proof.
  intros H. rewrite YoutubeDownloader.retry_loop_unfold_eq at 1.
  with_strategy transparent [YoutubeDownloader.retry_loop_unfold]
    unfold YoutubeDownloader.retry_loop_unfold.
  destruct (lt_dec retryCount maxRetries) as [l|n]; [reflexivity | contradiction].
Qed.

Lemma hardened_loop_step (resolved command : string) (retryCount : nat) :
  retryCount < maxRetries ->
  hardened_loop resolved command retryCount
  = Exec command (fun child =>
      on_data (chunks child) "" "" (fun outputLog errorLog =>
        if code_is (exit child) 0 || code_is (exit child) 1
        then Ret (Fulfilled (JS.str resolved))
        else
          Console (log ("Retry attempt " ++ show_nat (retryCount + 1)
                      ++ "/" ++ show_nat maxRetries ++ "..."))
            (if (retryCount + 1 =? maxRetries)%nat
             then Ret (Rejected (JS.Error
                    (hardenedMessage (exit child) errorLog)))
             else
               Sleep (5000 * Z.of_nat (retryCount + 1))
                 (hardened_loop resolved command (retryCount + 1))))).
Proof.
  intros H. rewrite hardened_loop_unfold_eq at 1.
  with_strategy transparent [hardened_loop_unfold] unfold hardened_loop_unfold.
  destruct (lt_dec retryCount maxRetries) as [l|n]; [reflexivity | contradiction].
Qed.

Lemma strict_loop_step (retryCount : nat) :
  retryCount < maxRetries ->
  YoutubeSingleDownloader.strict_loop retryCount
  = if (retryCount + 1 =? maxRetries)%nat
    then Ret (Rejected YoutubeSingleDownloader.exec_is_not_defined)
    else
      Console (log ("Retry attempt " ++ show_nat (retryCount + 1)
                  ++ "/" ++ show_nat maxRetries ++ "..."))
        (Sleep 2000 (YoutubeSingleDownloader.strict_loop (retryCount + 1))).
Proof.
  intros H. rewrite YoutubeSingleDownloader.strict_loop_unfold_eq at 1.
  with_strategy transparent [YoutubeSingleDownloader.strict_loop_unfold]
    unfold YoutubeSingleDownloader.strict_loop_unfold.
  destruct (lt_dec retryCount maxRetries) as [l|n]; [reflexivity | contradiction].
Qed.

(** The whole loop of youtube-single-downloader.js: no process is ever
    created. *)
Lemma strict_loop_unrolled :
  YoutubeSingleDownloader.strict_loop 0
  = Console (log "Retry attempt 1/3...")
      (Sleep 2000
         (Console (log "Retry attempt 2/3...")
            (Sleep 2000
               (Ret (Rejected YoutubeSingleDownloader.exec_is_not_defined))))).
Proof.
  rewrite (strict_loop_step 0) by (unfold maxRetries; lia).
  cbn [Nat.add Nat.eqb maxRetries].
  rewrite (strict_loop_step 1) by (unfold maxRetries; lia).
  cbn [Nat.add Nat.eqb maxRetries].
  rewrite (strict_loop_step 2) by (unfold maxRetries; lia).
  reflexivity.
Qed.

(** ** Exhausting the retries *)

Section Exhaustion.

Variable launcher : nat -> proc_run.
Variable w : world.

Lemma retry_loop_exhausted (command : string) :
  (forall n, code_is (exit (launcher n)) 0 = false) ->
  run launcher (YoutubeDownloader.retry_loop command 0) w
  = (Rejected (JS.Error (YoutubeDownloader.errorMessage 2 (exit (nth_run launcher w 2))
                           (stderr_text (chunks (nth_run launcher w 2))))),
     mkWorld (launched w ++ [command; command; command])
             (timers w ++ [2000; 2000]%Z)
             (console w ++ relayed (chunks (launcher (List.length (launched w))))
                ++ [log "Retry attempt 1/3..."] ++ relayed (chunks (nth_run launcher w 1))
                ++ [log "Retry attempt 2/3..."] ++ relayed (chunks (nth_run launcher w 2)))).
Proof.
  intros fails.
  rewrite (retry_loop_step command 0) by (unfold maxRetries; lia).
  cbn [run]. rewrite run_on_data, fails. cbn [Nat.add Nat.eqb maxRetries run].
  rewrite (retry_loop_step command 1) by (unfold maxRetries; lia).
  cbn [run]. rewrite run_on_data, fails. cbn [Nat.add Nat.eqb maxRetries run].
  rewrite (retry_loop_step command 2) by (unfold maxRetries; lia).
  cbn [run]. rewrite run_on_data, fails. cbn [Nat.add Nat.eqb maxRetries run].
  unfold nth_run, print_all, do_print, do_exec, do_timer.
  cbn [launched timers console]. rewrite !length_app. cbn [List.length].
  rewrite <- !Nat.add_assoc. cbn [Nat.add].
  rewrite <- !app_assoc. reflexivity.
Qed.

Lemma hardened_loop_exhausted (resolved command : string) :
  (forall n, code_is (exit (launcher n)) 0 || code_is (exit (launcher n)) 1
             = false) ->
  run launcher (hardened_loop resolved command 0) w
  = (Rejected (JS.Error (hardenedMessage (exit (nth_run launcher w 2))
                           (stderr_text (chunks (nth_run launcher w 2))))),
     mkWorld (launched w ++ [command; command; command])
             (timers w ++ [5000; 10000]%Z)
             (console w ++ relayed (chunks (launcher (List.length (launched w))))
                ++ [log "Retry attempt 1/3..."] ++ relayed (chunks (nth_run launcher w 1))
                ++ [log "Retry attempt 2/3..."] ++ relayed (chunks (nth_run launcher w 2))
                ++ [log "Retry attempt 3/3..."])).
Proof.
  intros fails.
  rewrite (hardened_loop_step resolved command 0) by (unfold maxRetries; lia).
  cbn [run]. rewrite run_on_data, fails. cbn [Nat.add Nat.eqb maxRetries run].
  rewrite (hardened_loop_step resolved command 1) by (unfold maxRetries; lia).
  cbn [run]. rewrite run_on_data, fails. cbn [Nat.add Nat.eqb maxRetries run].
  rewrite (hardened_loop_step resolved command 2) by (unfold maxRetries; lia).
  cbn [run]. rewrite run_on_data, fails. cbn [Nat.add Nat.eqb maxRetries run].
  unfold nth_run, print_all, do_print, do_exec, do_timer.
  cbn [launched timers console]. rewrite !length_app. cbn [List.length].
  rewrite <- !Nat.add_assoc. cbn [Nat.add].
  rewrite <- !app_assoc. reflexivity.
Qed.

(** An accepted exit code on the first attempt ends the loop there. *)
Lemma retry_loop_resolves (command : string) :
  code_is (exit (launcher (List.length (launched w)))) 0 = true ->
  run launcher (YoutubeDownloader.retry_loop command 0) w
  = (Fulfilled (JS.str "Video download completed successfully"),
     mkWorld (launched w ++ [command]) (timers w)
             (console w ++ relayed (chunks (launcher (List.length (launched w)))))).
Proof.
  intros ok.
  rewrite (retry_loop_step command 0) by (unfold maxRetries; lia).
  cbn [run]. rewrite run_on_data. rewrite ok. reflexivity.
Qed.

Lemma hardened_loop_resolves (resolved command : string) :
  code_is (exit (launcher (List.length (launched w)))) 0 || code_is (exit (launcher (List.length (launched w)))) 1 = true ->
  run launcher (hardened_loop resolved command 0) w
  = (Fulfilled (JS.str resolved),
     mkWorld (launched w ++ [command]) (timers w)
             (console w ++ relayed (chunks (launcher (List.length (launched w)))))).
Proof.
  intros ok.
  rewrite (hardened_loop_step resolved command 0) by (unfold maxRetries; lia).
  cbn [run]. rewrite run_on_data. rewrite ok. reflexivity.
Qed.

End Exhaustion.

(** ** A bound on the launches of a computation, whatever the processes do *)

Lemma launches_le_run {A} launcher (p : prog A) :
  forall n w, launches_le n p ->
    List.length (launched (snd (run launcher p w)))
    <= List.length (launched w) + n.
Proof.
  induction p as [a|c k IH|ms k IH|l k IH|k IH]; intros n w bound; cbn [run].
  - simpl. lia.
  - destruct n as [|n']; [destruct bound|].
    cbn [launches_le] in bound.
    pose proof (IH (launcher (List.length (launched w))) n' (do_exec c w)
                  (bound _)) as H.
    unfold do_exec in H at 2. cbn [launched] in H.
    rewrite length_app in H. simpl in H. lia.
  - apply (IH n (do_timer ms w) bound).
  - apply (IH n (do_print l w) bound).
  - apply (IH n w bound).
Qed.

Lemma launches_le_on_data {A} n (cs : list chunk) :
  forall outputLog errorLog (k : string -> string -> prog A),
    (forall o e, launches_le n (k o e)) ->
    launches_le n (on_data cs outputLog errorLog k).
Proof.
  induction cs as [|[data|data] cs IH]; intros outputLog errorLog k H; simpl; auto.
Qed.

Lemma retry_loop_launches (command : string) :
  launches_le 3 (YoutubeDownloader.retry_loop command 0).
Proof.
  rewrite (retry_loop_step command 0) by (unfold maxRetries; lia).
  cbn [launches_le]. intros child0. apply launches_le_on_data. intros _ e0.
  destruct (code_is (exit child0) 0); cbn; [exact I|].
  rewrite (retry_loop_step command 1) by (unfold maxRetries; lia).
  cbn [launches_le]. intros child1. apply launches_le_on_data. intros _ e1.
  destruct (code_is (exit child1) 0); cbn; [exact I|].
  rewrite (retry_loop_step command 2) by (unfold maxRetries; lia).
  cbn [launches_le]. intros child2. apply launches_le_on_data. intros _ e2.
  destruct (code_is (exit child2) 0); cbn; exact I.
Qed.

Lemma hardened_loop_launches (resolved command : string) :
  launches_le 3 (hardened_loop resolved command 0).
Proof.
  rewrite (hardened_loop_step resolved command 0) by (unfold maxRetries; lia).
  cbn [launches_le]. intros child0. apply launches_le_on_data. intros _ e0.
  destruct (code_is (exit child0) 0 || code_is (exit child0) 1); cbn; [exact I|].
  rewrite (hardened_loop_step resolved command 1) by (unfold maxRetries; lia).
  cbn [launches_le]. intros child1. apply launches_le_on_data. intros _ e1.
  destruct (code_is (exit child1) 0 || code_is (exit child1) 1); cbn; [exact I|].
  rewrite (hardened_loop_step resolved command 2) by (unfold maxRetries; lia).
  cbn [launches_le]. intros child2. apply launches_le_on_data. intros _ e2.
  destruct (code_is (exit child2) 0 || code_is (exit child2) 1); cbn; exact I.
Qed.

(** ** The messages of the final error *)

Lemma errorMessage_includes_code retryCount code errorLog :
  JS.includes (YoutubeDownloader.errorMessage retryCount code errorLog)
              (show_code code).
Proof.
  unfold YoutubeDownloader.errorMessage.
  exists ("Download failed (attempt " ++ show_nat (retryCount + 1) ++ "/"
          ++ show_nat maxRetries ++ "):" ++ nl ++ "Exit code: "),
         (nl ++ "Error log: " ++ errorLog).
  now rewrite !append_assoc.
Qed.

Lemma hardenedMessage_includes_code code errorLog :
  JS.includes (hardenedMessage code errorLog) (show_code code).
Proof.
  unfold hardenedMessage.
  now exists "Download failed with code ", (nl ++ "Error log: " ++ errorLog).
Qed.

(** ** The entry points on a configuration with a URL *)

Lemma single_with_url this c :
  JS.truthy (videoUrl c) = true ->
  YoutubeDownloader.downloadSingleVideo this (Obj c)
  = Console (log ("Starting download for video: " ++ JS.toString (videoUrl c)))
      (Console (log ("Debug: Executing command: "
                   ++ YoutubeDownloader.command this c))
         (YoutubeDownloader.retry_loop (YoutubeDownloader.command this c) 0)).
Proof.
  intros url. unfold YoutubeDownloader.downloadSingleVideo. cbn [destructure].
  now rewrite url.
Qed.

Lemma hardened_single_with_url this c :
  JS.truthy (videoUrl c) = true ->
  HardenedSingleDownloader.downloadSingleVideo this (Obj c)
  = Console (log ("Starting download for video: " ++ JS.toString (videoUrl c)))
      (Console (log ("Debug: Starting download with command: "
                   ++ HardenedSingleDownloader.command this c))
         (hardened_loop "Download completed successfully"
            (HardenedSingleDownloader.command this c) 0)).
Proof.
  intros url. unfold HardenedSingleDownloader.downloadSingleVideo.
  cbn [destructure]. now rewrite url.
Qed.

Lemma playlist_with_url this c :
  JS.truthy (playlistUrl c) = true ->
  YoutubePlaylistDownloader.downloadPlaylist this (Obj c)
  = Console (log ("Debug: Starting download with command: "
                ++ YoutubePlaylistDownloader.command this c))
      (hardened_loop "Download completed with some videos"
         (YoutubePlaylistDownloader.command this c) 0).
Proof.
  intros url. unfold YoutubePlaylistDownloader.downloadPlaylist.
  cbn [destructure]. now rewrite url.
Qed.

Lemma strict_single_with_url this c :
  JS.truthy (videoUrl c) = true ->
  YoutubeSingleDownloader.downloadSingleVideo this (Obj c)
  = Console (log ("Starting download for video: " ++ JS.toString (videoUrl c)))
      (Console (log ("Debug: Executing command: "
                   ++ YoutubeSingleDownloader.command this c))
         (YoutubeSingleDownloader.strict_loop 0)).
Proof.
  intros url. unfold YoutubeSingleDownloader.downloadSingleVideo.
  cbn [destructure]. now rewrite url.
Qed.

(** The strict downloader of youtube-single-downloader.js contains no
    launch at all. *)
Lemma strict_single_launches this a n :
  launches_le n (YoutubeSingleDownloader.downloadSingleVideo this a).
Proof.
  unfold YoutubeSingleDownloader.downloadSingleVideo.
  destruct (destructure "videoUrl" a) as [c|e]; [|exact I].
  destruct (JS.truthy (videoUrl c)); cbn; [|exact I].
  rewrite strict_loop_unrolled. exact I.
Qed.

(** Its whole run on a configuration with a URL, whatever the processes
    would do. *)
Lemma strict_single_run this c launcher w :
  JS.truthy (videoUrl c) = true ->
  run launcher (YoutubeSingleDownloader.downloadSingleVideo this (Obj c)) w
  = (Rejected (JS.ReferenceError "exec is not defined"),
     mkWorld (launched w) (timers w ++ [2000; 2000]%Z)
       (console w
        ++ [ log ("Starting download for video: " ++ JS.toString (videoUrl c));
             log ("Debug: Executing command: "
                  ++ YoutubeSingleDownloader.command this c);
             log "Retry attempt 1/3..."; log "Retry attempt 2/3..." ])).
Proof.
  intros url.
  rewrite (strict_single_with_url this c url), strict_loop_unrolled.
  cbn [run]. unfold do_print, do_timer. cbn [launched timers console].
  rewrite <- !app_assoc. reflexivity.
Qed.

Lemma run_without_launch {A} launcher (p : prog A) :
  forall w, launches_le 0 p -> launched (snd (run launcher p w)) = launched w.
Proof.
  induction p as [a|c k IH|ms k IH|l k IH|k IH]; intros w bound; cbn [run].
  - reflexivity.
  - destruct bound.
  - apply (IH (do_timer ms w) bound).
  - apply (IH (do_print l w) bound).
  - apply (IH w bound).
Qed.

(** ** The order of the effects *)

(** A [world] holds the projections of the history. *)
Lemma run_history {A} launcher (p : prog A) :
  forall w,
    let w' := snd (run launcher p w) in
    let h := history launcher p (List.length (launched w)) in
    launched w' = (launched w ++ launches h)%list
    /\ timers w' = (timers w ++ waits h)%list
    /\ console w' = (console w ++ outputs h)%list.
Proof.
  induction p as [a|c k IH|ms k IH|l k IH|k IH]; intros w; cbn zeta;
    cbn [run history launches waits outputs].
  - now rewrite !app_nil_r.
  - destruct (IH (launcher (List.length (launched w))) (do_exec c w))
      as (Hl & Ht & Hc). cbn zeta in Hl, Ht, Hc.
    unfold do_exec in Hl at 2, Ht at 2, Hc at 2.
    cbn [launched timers console] in Hl, Ht, Hc.
    replace (List.length (launched (do_exec c w)))
      with (S (List.length (launched w))) in Hl, Ht, Hc
      by (unfold do_exec; cbn [launched]; rewrite length_app; cbn; lia).
    rewrite Hl, Ht, Hc, <- app_assoc. auto.
  - destruct (IH (do_timer ms w)) as (Hl & Ht & Hc). cbn zeta in Hl, Ht, Hc.
    unfold do_timer in Hl at 2, Ht at 2, Hc at 2.
    cbn [launched timers console] in Hl, Ht, Hc.
    change (launched (do_timer ms w)) with (launched w) in Hl, Ht, Hc.
    rewrite Hl, Ht, Hc, <- app_assoc. auto.
  - destruct (IH (do_print l w)) as (Hl & Ht & Hc). cbn zeta in Hl, Ht, Hc.
    unfold do_print in Hl at 2, Ht at 2, Hc at 2.
    cbn [launched timers console] in Hl, Ht, Hc.
    change (launched (do_print l w)) with (launched w) in Hl, Ht, Hc.
    rewrite Hl, Ht, Hc, <- app_assoc. auto.
  - apply IH.
Qed.

Lemma history_on_data {A} launcher (cs : list chunk) :
  forall outputLog errorLog (k : string -> string -> prog A) n,
    attempts_and_delays (history launcher (on_data cs outputLog errorLog k) n)
    = attempts_and_delays
        (history launcher
           (k (outputLog ++ stdout_text cs) (errorLog ++ stderr_text cs)) n).
Proof.
  induction cs as [|[data|data] cs IH]; intros outputLog errorLog k n; simpl.
  - now rewrite !append_nil_r.
  - fold (attempts_and_delays
            (history launcher (on_data cs (outputLog ++ data) errorLog k) n)).
    now rewrite IH, append_assoc.
  - fold (attempts_and_delays
            (history launcher (on_data cs outputLog (errorLog ++ data) k) n)).
    now rewrite IH, append_assoc.
Qed.

(** One iteration of each loop in the history: the launch comes first, and
    the timer, when the loop goes on, between it and the next launch. *)
Lemma retry_loop_order launcher command k n :
  k < maxRetries ->
  attempts_and_delays
    (history launcher (YoutubeDownloader.retry_loop command k) n)
  = Launch command
      :: (if succeeded (launcher n) then []
          else if (k + 1 =? maxRetries)%nat then []
               else Wait 2000
                      :: attempts_and_delays
                           (history launcher
                              (YoutubeDownloader.retry_loop command (k + 1))
                              (S n))).
Proof.
  intros H. rewrite (retry_loop_step command k H).
  cbn [history attempts_and_delays List.filter].
  fold (attempts_and_delays
          (history launcher
             (on_data (chunks (launcher n)) "" ""
                (fun outputLog errorLog =>
                   if code_is (exit (launcher n)) 0
                   then Ret (Fulfilled (JS.str "Video download completed successfully"))
                   else
                     if (k + 1 =? maxRetries)%nat
                     then Ret (Rejected (JS.Error
                            (YoutubeDownloader.errorMessage k (exit (launcher n)) errorLog)))
                     else
                       Console (log ("Retry attempt " ++ show_nat (k + 1)
                                   ++ "/" ++ show_nat maxRetries ++ "..."))
                         (Sleep 2000 (YoutubeDownloader.retry_loop command (k + 1)))))
             (S n))).
  rewrite history_on_data. unfold succeeded.
  destruct (code_is (exit (launcher n)) 0); [reflexivity|].
  destruct (k + 1 =? maxRetries)%nat; reflexivity.
Qed.

Lemma hardened_loop_order launcher resolved command k n :
  k < maxRetries ->
  attempts_and_delays (history launcher (hardened_loop resolved command k) n)
  = Launch command
      :: (if accepted (launcher n) then []
          else if (k + 1 =? maxRetries)%nat then []
               else Wait (5000 * Z.of_nat (k + 1))
                      :: attempts_and_delays
                           (history launcher
                              (hardened_loop resolved command (k + 1)) (S n))).
Proof.
  intros H. rewrite (hardened_loop_step resolved command k H).
  cbn [history attempts_and_delays List.filter].
  fold (attempts_and_delays
          (history launcher
             (on_data (chunks (launcher n)) "" ""
                (fun outputLog errorLog =>
                   if code_is (exit (launcher n)) 0 || code_is (exit (launcher n)) 1
                   then Ret (Fulfilled (JS.str resolved))
                   else
                     Console (log ("Retry attempt " ++ show_nat (k + 1)
                                 ++ "/" ++ show_nat maxRetries ++ "..."))
                       (if (k + 1 =? maxRetries)%nat
                        then Ret (Rejected (JS.Error
                               (hardenedMessage (exit (launcher n)) errorLog)))
                        else
                          Sleep (5000 * Z.of_nat (k + 1))
                            (hardened_loop resolved command (k + 1)))))
             (S n))).
  rewrite history_on_data. unfold accepted.
  destruct (code_is (exit (launcher n)) 0 || code_is (exit (launcher n)) 1);
    [reflexivity|].
  cbn [history attempts_and_delays List.filter].
  destruct (k + 1 =? maxRetries)%nat; reflexivity.
Qed.

(** When every attempt fails, the three launches are separated by the two
    timers. *)
Lemma retry_loop_exhausted_order launcher command n :
  (forall i, code_is (exit (launcher i)) 0 = false) ->
  attempts_and_delays
    (history launcher (YoutubeDownloader.retry_loop command 0) n)
  = spaced command [2000; 2000]%Z.
Proof.
  intros fails.
  rewrite retry_loop_order by (unfold maxRetries; lia).
  unfold succeeded at 1. rewrite fails. cbn [Nat.add Nat.eqb maxRetries].
  rewrite retry_loop_order by (unfold maxRetries; lia).
  unfold succeeded at 1. rewrite fails. cbn [Nat.add Nat.eqb maxRetries].
  rewrite retry_loop_order by (unfold maxRetries; lia).
  unfold succeeded at 1. rewrite fails. reflexivity.
Qed.

Lemma hardened_loop_exhausted_order launcher resolved command n :
  (forall i, code_is (exit (launcher i)) 0 || code_is (exit (launcher i)) 1
             = false) ->
  attempts_and_delays (history launcher (hardened_loop resolved command 0) n)
  = spaced command [5000 * 1; 5000 * 2]%Z.
Proof.
  intros fails.
  rewrite hardened_loop_order by (unfold maxRetries; lia).
  unfold accepted at 1. rewrite fails. cbn [Nat.add Nat.eqb maxRetries].
  rewrite hardened_loop_order by (unfold maxRetries; lia).
  unfold accepted at 1. rewrite fails. cbn [Nat.add Nat.eqb maxRetries].
  rewrite hardened_loop_order by (unfold maxRetries; lia).
  unfold accepted at 1. rewrite fails. reflexivity.
Qed.

(** Every entry point is a computation of at most three launches. *)
Lemma single_launches this a :
  launches_le 3 (YoutubeDownloader.downloadSingleVideo this a).
Proof.
  unfold YoutubeDownloader.downloadSingleVideo.
  destruct (destructure "videoUrl" a) as [c|e]; [|exact I].
  destruct (JS.truthy (videoUrl c)); cbn; [apply retry_loop_launches | exact I].
Qed.

Lemma hardened_single_launches this a :
  launches_le 3 (HardenedSingleDownloader.downloadSingleVideo this a).
Proof.
  unfold HardenedSingleDownloader.downloadSingleVideo.
  destruct (destructure "videoUrl" a) as [c|e]; [|exact I].
  destruct (JS.truthy (videoUrl c)); cbn; [apply hardened_loop_launches | exact I].
Qed.

Lemma playlist_launches this a :
  launches_le 3 (YoutubePlaylistDownloader.downloadPlaylist this a).
Proof.
  unfold YoutubePlaylistDownloader.downloadPlaylist.
  destruct (destructure "playlistUrl" a) as [c|e]; [|exact I].
  destruct (JS.truthy (playlistUrl c)); cbn; [apply hardened_loop_launches | exact I].
Qed.

(** ** C1 *)

(** C1.  With a URL and a launcher whose process ends every time with a
    code that the method does not accept, [downloadSingleVideo] (fixed delay)
    and [downloadPlaylist] (hardened) launch the same command exactly three
    times, wait 2000 ms twice, respectively 5000 ms and then 10000 ms, and
    reject with an error whose message includes the exit code of the third
    process.  The waits lie between the attempts: in the order of the
    effects, each launch but the last is followed by one timer, and that
    timer by the next launch. *)
Theorem retries_exhausted (this : downloader) (v p : config)
  (simple hardened : nat -> proc_run) (w : world) :
  JS.truthy (videoUrl v) = true ->
  JS.truthy (playlistUrl p) = true ->
  (forall n, code_is (exit (simple n)) 0 = false) ->
  (forall n, code_is (exit (hardened n)) 0 || code_is (exit (hardened n)) 1
             = false) ->
  (exists msg w',
      run simple (YoutubeDownloader.downloadSingleVideo this (Obj v)) w
      = (Rejected (JS.Error msg), w')
      /\ launched w' = (launched w
                        ++ List.repeat (YoutubeDownloader.command this v) maxRetries)%list
      /\ timers w' = (timers w ++ [2000; 2000]%Z)%list
      /\ attempts_and_delays
           (history simple (YoutubeDownloader.downloadSingleVideo this (Obj v))
              (List.length (launched w)))
         = [ Launch (YoutubeDownloader.command this v); Wait 2000;
             Launch (YoutubeDownloader.command this v); Wait 2000;
             Launch (YoutubeDownloader.command this v) ]
      /\ JS.includes msg
           (show_code (exit (simple (List.length (launched w) + 2)))))
  /\ (exists msg w',
      run hardened (YoutubePlaylistDownloader.downloadPlaylist this (Obj p)) w
      = (Rejected (JS.Error msg), w')
      /\ launched w' = (launched w
                        ++ List.repeat (YoutubePlaylistDownloader.command this p)
                             maxRetries)%list
      /\ timers w' = (timers w ++ [5000 * 1; 5000 * 2]%Z)%list
      /\ attempts_and_delays
           (history hardened
              (YoutubePlaylistDownloader.downloadPlaylist this (Obj p))
              (List.length (launched w)))
         = [ Launch (YoutubePlaylistDownloader.command this p); Wait (5000 * 1);
             Launch (YoutubePlaylistDownloader.command this p); Wait (5000 * 2);
             Launch (YoutubePlaylistDownloader.command this p) ]
      /\ JS.includes msg
           (show_code (exit (hardened (List.length (launched w) + 2))))).
Proof.
  intros vurl purl sfails hfails. split.
  - rewrite (single_with_url this v vurl). cbn [run].
    rewrite retry_loop_exhausted by exact sfails. unfold nth_run.
    eexists _, _. split; [reflexivity|]. cbn [launched timers do_print].
    split; [reflexivity|]. split; [reflexivity|]. split.
    + cbn [history attempts_and_delays List.filter].
      exact (retry_loop_exhausted_order simple _ _ sfails).
    + apply errorMessage_includes_code.
  - rewrite (playlist_with_url this p purl). cbn [run].
    rewrite hardened_loop_exhausted by exact hfails. unfold nth_run.
    eexists _, _. split; [reflexivity|]. cbn [launched timers do_print].
    split; [reflexivity|]. split; [reflexivity|]. split.
    + cbn [history attempts_and_delays List.filter].
      exact (hardened_loop_exhausted_order hardened _ _ _ hfails).
    + apply hardenedMessage_includes_code.
Qed.

Lemma retries_exhausted_witness :
  exists msg w',
    run (exits 2) (YoutubeDownloader.downloadSingleVideo
                     (YoutubeDownloader.new "/home/user/Downloads/playlists")
                     (Obj a_video)) world0
    = (Rejected (JS.Error msg), w')
    /\ List.length (launched w') = 3
    /\ timers w' = [2000; 2000]%Z
    /\ List.map (fun e => match e with
                          | Launch _ => "launch"
                          | Wait _ => "wait"
                          | Output _ => "output"
                          end)
         (attempts_and_delays
            (history (exits 2)
               (YoutubeDownloader.downloadSingleVideo
                  (YoutubeDownloader.new "/home/user/Downloads/playlists")
                  (Obj a_video)) 0))
       = ["launch"; "wait"; "launch"; "wait"; "launch"]
    /\ JS.includes msg "2".
Proof.
  destruct (retries_exhausted
              (YoutubeDownloader.new "/home/user/Downloads/playlists")
              a_video a_playlist (exits 2) (exits 2) world0)
    as [(msg & w' & Hrun & Hl & Ht & Ho & Hm) _];
    try reflexivity; try (intros n; reflexivity).
  exists msg, w'. split; [exact Hrun|]. split; [rewrite Hl; reflexivity|].
  split; [exact Ht|]. split; [|exact Hm].
  cbn [world0 launched List.length] in Ho. rewrite Ho. reflexivity.
Defined.

(** ** C3 *)

(** C3.  Exit code 1 never reaches the strict downloader of
    youtube-single-downloader.js.  The ['close'] handler of its
    [downloadSingleVideo] (lines 49-56) does treat every code but 0 as a
    failure, but the file does not declare [exec], so the handler is never
    attached: whatever the processes would do, the method launches nothing,
    prints two retry notices, sleeps 2000 ms twice and rejects with the
    [ReferenceError] "exec is not defined".  The same method text in
    youtube-downloader.js, where [exec] is imported, launches three times
    and rejects with a message that carries "Exit code: 1";
    [downloadPlaylist] and the hardened copy of [downloadSingleVideo] accept
    the first exit with code 1 and resolve after one launch. *)
Theorem strict_single_rejects_before_any_launch (strict this : downloader)
  (v p : config) (launcher : nat -> proc_run) (w : world) :
  JS.truthy (videoUrl v) = true ->
  JS.truthy (playlistUrl p) = true ->
  (forall n, exit (launcher n) = Some 1%Z) ->
  run launcher (YoutubeSingleDownloader.downloadSingleVideo strict (Obj v)) w
  = (Rejected (JS.ReferenceError "exec is not defined"),
     mkWorld (launched w) (timers w ++ [2000; 2000]%Z)
       (console w
        ++ [ log ("Starting download for video: " ++ JS.toString (videoUrl v));
             log ("Debug: Executing command: "
                  ++ YoutubeSingleDownloader.command strict v);
             log "Retry attempt 1/3..."; log "Retry attempt 2/3..." ]))
  /\ (exists msg w',
      run launcher (YoutubeDownloader.downloadSingleVideo strict (Obj v)) w
      = (Rejected (JS.Error msg), w')
      /\ launched w' = (launched w
                        ++ List.repeat (YoutubeDownloader.command strict v) 3)%list
      /\ JS.includes msg "Exit code: 1")
  /\ (exists w',
      run launcher (YoutubePlaylistDownloader.downloadPlaylist this (Obj p)) w
      = (Fulfilled (JS.str "Download completed with some videos"), w')
      /\ launched w' = (launched w
                        ++ [YoutubePlaylistDownloader.command this p])%list
      /\ timers w' = timers w)
  /\ (exists w',
      run launcher (HardenedSingleDownloader.downloadSingleVideo this (Obj v)) w
      = (Fulfilled (JS.str "Download completed successfully"), w')
      /\ launched w' = (launched w
                        ++ [HardenedSingleDownloader.command this v])%list
      /\ timers w' = timers w).
Proof.
  intros vurl purl one. split; [|split; [|split]].
  - exact (strict_single_run strict v launcher w vurl).
  - rewrite (single_with_url strict v vurl). cbn [run].
    rewrite retry_loop_exhausted by (intros n; now rewrite one).
    unfold nth_run.
    eexists _, _. split; [reflexivity|]. cbn [launched do_print].
    split; [reflexivity|]. rewrite one.
    exists ("Download failed (attempt 3/3):" ++ nl),
           (nl ++ "Error log: "
               ++ stderr_text (chunks (launcher (List.length (launched w) + 2)))).
    reflexivity.
  - rewrite (playlist_with_url this p purl). cbn [run].
    rewrite hardened_loop_resolves by (now rewrite one).
    eexists. split; [reflexivity|]. now cbn.
  - rewrite (hardened_single_with_url this v vurl). cbn [run].
    rewrite hardened_loop_resolves by (now rewrite one).
    eexists. split; [reflexivity|]. now cbn.
Qed.

Lemma strict_single_rejects_before_any_launch_witness :
  (let ended :=
     run (exits 1) (YoutubeSingleDownloader.downloadSingleVideo
                      (YoutubeSingleDownloader.new "/d") (Obj a_video)) world0 in
   fst ended = Rejected (JS.ReferenceError "exec is not defined")
   /\ launched (snd ended) = []
   /\ timers (snd ended) = [2000; 2000]%Z)
  /\ fst (run (exits 1) (YoutubePlaylistDownloader.downloadPlaylist
                           (YoutubePlaylistDownloader.new "/d") (Obj a_playlist))
             world0)
     = Fulfilled (JS.str "Download completed with some videos").
Proof.
  destruct (strict_single_rejects_before_any_launch
              (YoutubeSingleDownloader.new "/d")
              (YoutubePlaylistDownloader.new "/d") a_video a_playlist
              (exits 1) world0)
    as (H1 & _ & (w2 & H2 & _) & _);
    try reflexivity; try (intros n; reflexivity).
  cbn zeta. rewrite H1, H2. repeat split.
Defined.

(** ** C4 *)

(** C4.  A configuration whose URL is missing or empty (falsy) makes every
    download entry point reject at once with the "URL is required" error:
    the trace is unchanged, so no process was launched. *)
Theorem url_required (this : downloader) (v p : config)
  (launcher : nat -> proc_run) (w : world) :
  JS.truthy (videoUrl v) = false ->
  JS.truthy (playlistUrl p) = false ->
  run launcher (YoutubeDownloader.downloadSingleVideo this (Obj v)) w
  = (Rejected (JS.Error "Video URL is required"), w)
  /\ run launcher (HardenedSingleDownloader.downloadSingleVideo this (Obj v)) w
     = (Rejected (JS.Error "Video URL is required"), w)
  /\ run launcher (YoutubeDownloader.downloadPlaylist this (Obj p)) w
     = (Rejected (JS.Error "Playlist URL is required"), w)
  /\ run launcher (YoutubePlaylistDownloader.downloadPlaylist this (Obj p)) w
     = (Rejected (JS.Error "Playlist URL is required"), w).
Proof.
  intros vurl purl.
  unfold YoutubeDownloader.downloadSingleVideo,
    HardenedSingleDownloader.downloadSingleVideo,
    YoutubeDownloader.downloadPlaylist,
    YoutubePlaylistDownloader.downloadPlaylist.
  cbn [destructure]. rewrite vurl, purl. cbn. auto.
Qed.

Lemma url_required_witness :
  launched (snd (run (exits 0) (YoutubeDownloader.downloadSingleVideo
                                  (YoutubeDownloader.new "/d") (Obj no_url))
                   world0)) = []
  /\ launched (snd (run (exits 0) (YoutubePlaylistDownloader.downloadPlaylist
                                     (YoutubePlaylistDownloader.new "/d")
                                     (Obj no_url)) world0)) = [].
Proof.
  destruct (url_required (YoutubeDownloader.new "/d") no_url no_url (exits 0)
              world0 eq_refl eq_refl) as (H1 & _ & _ & _).
  destruct (url_required (YoutubePlaylistDownloader.new "/d") no_url no_url
              (exits 0) world0 eq_refl eq_refl) as (_ & _ & _ & H4).
  rewrite H1, H4. split; reflexivity.
Defined.

(** ** C8 *)

(** C8.  Whatever the argument and whatever the processes do, each retrying
    method settles ([run] is total) having launched at most three
    processes. *)
Theorem at_most_three_launches (this : downloader) (a : argument)
  (launcher : nat -> proc_run) (w : world) :
  (exists r w',
      run launcher (YoutubeDownloader.downloadSingleVideo this a) w = (r, w')
      /\ List.length (launched w') <= List.length (launched w) + 3)
  /\ (exists r w',
      run launcher (YoutubePlaylistDownloader.downloadPlaylist this a) w = (r, w')
      /\ List.length (launched w') <= List.length (launched w) + 3)
  /\ (exists r w',
      run launcher (YoutubeSingleDownloader.downloadSingleVideo this a) w = (r, w')
      /\ List.length (launched w') <= List.length (launched w) + 3)
  /\ (exists r w',
      run launcher (HardenedSingleDownloader.downloadSingleVideo this a) w = (r, w')
      /\ List.length (launched w') <= List.length (launched w) + 3).
Proof.
  repeat split.
  all: match goal with
       | |- exists r w', run ?l ?p ?w = _ /\ _ =>
           exists (fst (run l p w)), (snd (run l p w));
           split; [now destruct (run l p w) | apply launches_le_run]
       end.
  - apply single_launches.
  - apply playlist_launches.
  - apply strict_single_launches.
  - apply hardened_single_launches.
Qed.

(** ** C9 *)

(** C9.  When the retries are exhausted, the error thrown is built from the
    exit code and the stderr chunks of the third process alone: the
    accumulator starts from the empty string in every attempt, so what the
    first two processes wrote to stderr is not in the message. *)
Theorem final_error_has_last_stderr_only (this : downloader) (v p : config)
  (simple hardened : nat -> proc_run) (w : world) :
  JS.truthy (videoUrl v) = true ->
  JS.truthy (playlistUrl p) = true ->
  (forall n, code_is (exit (simple n)) 0 = false) ->
  (forall n, code_is (exit (hardened n)) 0 || code_is (exit (hardened n)) 1
             = false) ->
  let last_simple := simple (List.length (launched w) + 2) in
  let last_hardened := hardened (List.length (launched w) + 2) in
  fst (run simple (YoutubeDownloader.downloadSingleVideo this (Obj v)) w)
  = Rejected (JS.Error
      ("Download failed (attempt 3/3):" ++ nl ++ "Exit code: "
       ++ show_code (exit last_simple) ++ nl ++ "Error log: "
       ++ stderr_text (chunks last_simple)))
  /\ fst (run hardened (YoutubePlaylistDownloader.downloadPlaylist this (Obj p)) w)
     = Rejected (JS.Error
         ("Download failed with code " ++ show_code (exit last_hardened) ++ nl
          ++ "Error log: " ++ stderr_text (chunks last_hardened))).
Proof.
  intros vurl purl sfails hfails. split.
  - rewrite (single_with_url this v vurl). cbn [run].
    rewrite retry_loop_exhausted by exact sfails. reflexivity.
  - rewrite (playlist_with_url this p purl). cbn [run].
    rewrite hardened_loop_exhausted by exact hfails. reflexivity.
Qed.

Lemma final_error_has_last_stderr_only_witness :
  fst (run noisy (YoutubeDownloader.downloadSingleVideo
                    (YoutubeDownloader.new "/d") (Obj a_video)) world0)
  = Rejected (JS.Error ("Download failed (attempt 3/3):" ++ nl
                        ++ "Exit code: 4" ++ nl ++ "Error log: third attempt"))
  /\ fst (run noisy (YoutubePlaylistDownloader.downloadPlaylist
                       (YoutubePlaylistDownloader.new "/d") (Obj a_playlist))
             world0)
     = Rejected (JS.Error ("Download failed with code 4" ++ nl
                           ++ "Error log: third attempt")).
Proof.
  apply (final_error_has_last_stderr_only (YoutubeDownloader.new "/d")
           a_video a_playlist noisy noisy world0);
    try reflexivity; intros [|[|n]]; reflexivity.
Defined.

(** ** C10 *)

(** C10.  A falsy [maxHeight] (0, [undefined], [null], [NaN], the empty
    string, [false]) selects the unconstrained expression, in the
    single-video and in the playlist builders, and that expression is what
    the command carries after [-f]. *)
Theorem falsy_height_is_no_cap (this : downloader) (c : config) :
  JS.truthy (maxHeight c) = false ->
  YoutubeDownloader.formatString (maxHeight c) = "bestvideo+bestaudio/best"
  /\ YoutubePlaylistDownloader.formatString (maxHeight c)
     = "bestvideo+bestaudio/best"
  /\ HardenedSingleDownloader.formatString (maxHeight c)
     = "bestvideo+bestaudio/best"
  /\ YoutubeDownloader.playlistFormatString (maxHeight c)
     = "bestvideo+bestaudio/best"
  /\ YoutubeDownloader.command this c
     = "yt-dlp " ++ defaultOptions this ++ " -f " ++ dq
         ++ "bestvideo+bestaudio/best" ++ dq ++ " --output " ++ dq
         ++ JS.toString (JS.or (outputPath c) (JS.str (basePath this)))
         ++ "/%(title)s.%(ext)s" ++ dq ++ " " ++ dq
         ++ JS.toString (videoUrl c) ++ dq
  /\ YoutubePlaylistDownloader.command this c
     = "yt-dlp " ++ defaultOptions this ++ " -f " ++ dq
         ++ "bestvideo+bestaudio/best" ++ dq ++ " -o " ++ dq
         ++ JS.toString (JS.or (outputPath c) (JS.str (basePath this)))
         ++ "/%(playlist_title)s/%(playlist_index)s - %(title)s.%(ext)s" ++ dq
         ++ " " ++ dq ++ JS.toString (playlistUrl c) ++ dq.
Proof.
  intros falsy.
  unfold YoutubeDownloader.command, YoutubePlaylistDownloader.command,
    YoutubeDownloader.formatString, YoutubePlaylistDownloader.formatString,
    HardenedSingleDownloader.formatString,
    YoutubeDownloader.playlistFormatString.
  rewrite falsy. repeat split; reflexivity.
Qed.

Lemma falsy_height_is_no_cap_witness :
  YoutubeDownloader.formatString (JS.number 0) = "bestvideo+bestaudio/best"
  /\ YoutubePlaylistDownloader.formatString (JS.number 0)
     = "bestvideo+bestaudio/best".
Proof.
  destruct (falsy_height_is_no_cap (YoutubeDownloader.new "/d") height_zero
              eq_refl) as (H1 & H2 & _).
  split; [exact H1 | exact H2].
Defined.

(** ** C2 *)

(** The builders that carry the capped fallback: with a truthy [maxHeight]
    they select ["bestvideo[height<=H]+bestaudio/best[height<=H]/best"]. *)
Lemma capped_format (h : JS.value) :
  JS.truthy h = true ->
  let expect := "bestvideo[height<=" ++ JS.toString h
                  ++ "]+bestaudio/best[height<=" ++ JS.toString h ++ "]/best" in
  YoutubeDownloader.formatString h = expect
  /\ YoutubePlaylistDownloader.formatString h = expect
  /\ HardenedSingleDownloader.formatString h = expect.
Proof.
  intros cap.
  unfold YoutubeDownloader.formatString, YoutubePlaylistDownloader.formatString,
    HardenedSingleDownloader.formatString.
  now rewrite cap.
Qed.

Lemma uncapped_format :
  YoutubeDownloader.formatString JS.undefined = "bestvideo+bestaudio/best"
  /\ YoutubePlaylistDownloader.formatString JS.undefined
     = "bestvideo+bestaudio/best"
  /\ HardenedSingleDownloader.formatString JS.undefined
     = "bestvideo+bestaudio/best"
  /\ YoutubeDownloader.playlistFormatString JS.undefined
     = "bestvideo+bestaudio/best".
Proof. repeat split. Qed.

(** C2.  [YoutubeDownloader.downloadPlaylist] (youtube-downloader.js, lines
    70-75) with [maxHeight = 720] does not select
    ["bestvideo[height<=720]+bestaudio/best[height<=720]/best"]: the
    expression it builds, and launches, has no capped fallback. *)
Theorem legacy_playlist_format_lacks_capped_fallback :
  YoutubeDownloader.playlistFormatString (JS.number 720)
  = "bestvideo[height<=720]+bestaudio/best"
  /\ YoutubeDownloader.playlistFormatString (JS.number 720)
     <> "bestvideo[height<=720]+bestaudio/best[height<=720]/best"
  /\ launched (snd (run (exits 0)
                      (YoutubeDownloader.downloadPlaylist
                         (YoutubeDownloader.new "/d") (Obj a_playlist)) world0))
     = [ "yt-dlp -f " ++ dq ++ "bestvideo[height<=720]+bestaudio/best" ++ dq
           ++ " -o " ++ dq
           ++ "/d/%(playlist_title)s/%(playlist_index)s - %(title)s.%(ext)s"
           ++ dq
           ++ " https://www.youtube.com/playlist?list=PLFLYQXBx1eBnq7bHJUkdH_C_rOXM17mLw" ].
Proof.
  split; [reflexivity | split; [discriminate | reflexivity]].
Qed.

(** ** C7 *)

(** C7.  Called with something that is not an array, or with an empty array,
    [downloadMultiplePlaylists] throws its validation error at once: no task
    exists, the trace is untouched, and no event can follow. *)
Theorem batch_requires_nonempty_array (downloadPlaylist : argument -> promise)
  (playlists : batch_argument) (launcher : nat -> proc_run) (w : world) :
  isArray playlists = false \/ playlists = Array [] ->
  let st := downloadMultiplePlaylists downloadPlaylist playlists w in
  caller_state st
  = Returned (Rejected
      (JS.Error "Please provide an array of playlist configurations"))
  /\ tasks st = []
  /\ trace st = w
  /\ forall ev, step launcher ev st = None.
Proof.
  intros bad.
  assert (guard : negb (isArray playlists)
                  || (List.length (elements playlists) =? 0)%nat = true).
  { destruct bad as [H|H]; [now rewrite H | now subst]. }
  unfold downloadMultiplePlaylists. rewrite guard. cbn.
  repeat split. intros [i s|]; [now destruct i | reflexivity].
Qed.

Lemma batch_requires_nonempty_array_witness :
  caller_state (YoutubePlaylistDownloader.downloadMultiplePlaylists
                  (YoutubePlaylistDownloader.new "/d") (Array []) world0)
  = Returned (Rejected
      (JS.Error "Please provide an array of playlist configurations"))
  /\ caller_state (YoutubeDownloader.downloadMultiplePlaylists
                     (YoutubeDownloader.new "/d")
                     (NotArray (JS.str "https://www.youtube.com/playlist"))
                     world0)
     = Returned (Rejected
         (JS.Error "Please provide an array of playlist configurations")).
Proof.
  split.
  - apply (batch_requires_nonempty_array
             (YoutubePlaylistDownloader.downloadPlaylist
                (YoutubePlaylistDownloader.new "/d"))
             (Array []) (exits 0) world0).
    right. reflexivity.
  - apply (batch_requires_nonempty_array
             (YoutubeDownloader.downloadPlaylist (YoutubeDownloader.new "/d"))
             (NotArray (JS.str "https://www.youtube.com/playlist"))
             (exits 0) world0).
    left. reflexivity.
Defined.

(** ** C6 *)

Section Versions.

Variable launcher : nat -> proc_run.
Variable w : world.

Lemma versions_inv_start : versions_inv launcher w (checkDependencies w).
Proof.
  exists false, false. unfold checkDependencies, await_all. cbn.
  rewrite length_app, <- app_assoc. cbn. repeat split; auto; discriminate.
Qed.

Lemma callback_fulfils command child :
  (exists v, callback command child = Fulfilled v) <-> succeeded child = true.
Proof.
  unfold callback. destruct (succeeded child); split; intros H;
    try reflexivity; try discriminate; eauto.
  now destruct H.
Qed.

Lemma note_None r rej :
  note (Settled r) rej = None <-> rej = None /\ exists v, r = Fulfilled v.
Proof.
  destruct rej as [e|], r as [v|e']; cbn; split;
    try discriminate; try (intros [H1 [v' H2]]; discriminate); eauto.
Qed.

Lemma versions_inv_step ev st st' :
  versions_inv launcher w st -> step launcher ev st = Some st' ->
  versions_inv launcher w st'.
Proof.
  intros (d1 & d2 & Ht & Hrej & Hl & Hc) Hstep.
  destruct ev as [i s|]; unfold step in Hstep; rewrite Ht in Hstep.
  - (* a version query closes *)
    destruct i as [|[|i]]; cbn [nth_error] in Hstep;
      [destruct d1 | destruct d2 | now destruct i];
      destruct s; cbn in Hstep; try discriminate;
      injection Hstep as <-; cbn [tasks rejection caller_state trace].
    + exists true, d2. cbn [tasks rejection caller_state trace].
      split; [reflexivity|]. split; [|split; assumption].
      rewrite note_None, callback_fulfils, Hrej.
      intuition discriminate.
    + exists d1, true. cbn [tasks rejection caller_state trace].
      split; [reflexivity|]. split; [|split; assumption].
      rewrite note_None, callback_fulfils, Hrej. fold (nth_run launcher w 1).
      intuition discriminate.
  - (* the caller resumes *)
    destruct (caller_state st) as [k|r] eqn:C; [|discriminate].
    destruct Hc as [-> Hcon]. unfold all_outcome in Hstep.
    destruct (rejection st) as [e|] eqn:R.
    + cbn in Hstep. injection Hstep as <-.
      exists d1, d2. cbn [tasks rejection caller_state trace].
      split; [reflexivity|]. split; [exact Hrej|].
      split; [exact Hl|]. right. split; [reflexivity|].
      split; [|cbn; now rewrite Hcon].
      destruct (succeeded (launcher (List.length (launched w)))) eqn:S1, (succeeded (nth_run launcher w 1)) eqn:S2;
        try reflexivity.
      assert (Some e = None) by (apply Hrej; auto). discriminate.
    + rewrite Ht in Hstep.
      destruct (proj1 Hrej eq_refl) as [H1 H2].
      destruct d1; [|discriminate]. destruct d2.
      2:{ cbn in Hstep. now destruct (callback _ _). }
      cbn in Hstep. fold (nth_run launcher w 1) in Hstep.
      destruct (proj2 (callback_fulfils "yt-dlp --version" (launcher (List.length (launched w))))
                  (H1 eq_refl)) as [v1 E1].
      destruct (proj2 (callback_fulfils "ffmpeg -version" (nth_run launcher w 1))
                  (H2 eq_refl)) as [v2 E2].
      rewrite E1, E2 in Hstep. cbn in Hstep. injection Hstep as <-.
      exists true, true. cbn [tasks rejection caller_state trace].
      split; [unfold version_task; fold (nth_run launcher w 1); now rewrite E1, E2|].
      split; [exact Hrej|].
      split; [exact Hl|]. left. split; [reflexivity|].
      split; [now rewrite H1, H2 | assumption].
Qed.

Lemma versions_inv_run evs :
  forall st st', versions_inv launcher w st ->
                 run_events launcher evs st = Some st' ->
                 versions_inv launcher w st'.
Proof.
  induction evs as [|ev evs IH]; intros st st' Hinv Hrun; cbn in Hrun.
  - now injection Hrun as <-.
  - destruct (step launcher ev st) as [st1|] eqn:S; [|discriminate].
    eapply IH; [eapply versions_inv_step|]; eassumption.
Qed.

End Versions.

(** C6.  [checkDependencies] launches the two version queries; in every
    order in which the runtime can deliver their outcomes, what it returns
    is [true] when both processes succeeded and [false] otherwise, it never
    throws, and it prints its diagnostic exactly when it returns [false].
    It does return: delivering both outcomes and resuming is a schedule. *)
Theorem checkDependencies_iff_both_succeed (launcher : nat -> proc_run)
  (w : world) :
  let yt_dlp := launcher (List.length (launched w)) in
  let ffmpeg := launcher (List.length (launched w) + 1) in
  let both := succeeded yt_dlp && succeeded ffmpeg in
  (forall evs st r,
      run_events launcher evs (checkDependencies w) = Some st ->
      caller_state st = Returned r ->
      r = Fulfilled (JS.boolean both)
      /\ console (trace st)
         = (console w ++ if both then [] else [missing_dependencies])%list
      /\ launched (trace st)
         = (launched w ++ ["yt-dlp --version"; "ffmpeg -version"])%list)
  /\ (exists st,
         run_events launcher [Wake 0 Close; Wake 1 Close; Resume]
           (checkDependencies w) = Some st
         /\ caller_state st = Returned (Fulfilled (JS.boolean both))).
Proof.
  intros yt_dlp ffmpeg both.
  assert (sound : forall evs st r,
             run_events launcher evs (checkDependencies w) = Some st ->
             caller_state st = Returned r ->
             r = Fulfilled (JS.boolean both)
             /\ console (trace st)
                = (console w ++ if both then [] else [missing_dependencies])%list
             /\ launched (trace st)
                = (launched w ++ ["yt-dlp --version"; "ffmpeg -version"])%list).
  { intros evs st r Hrun Hret.
    destruct (versions_inv_run launcher w evs _ _ (versions_inv_start launcher w) Hrun)
      as (d1 & d2 & _ & _ & Hl & Hc).
    rewrite Hret in Hc. unfold nth_run in Hc. fold yt_dlp ffmpeg both in Hc.
    destruct Hc as [(-> & -> & Hcon) | (-> & -> & Hcon)].
    - rewrite Hcon, app_nil_r. auto.
    - rewrite Hcon. auto. }
  split; [exact sound|].
  destruct (run_events launcher [Wake 0 Close; Wake 1 Close; Resume]
              (checkDependencies w)) as [st|] eqn:Hrun.
  - exists st. split; [reflexivity|].
    destruct (caller_state st) as [k|r] eqn:C.
    + exfalso. cbn in Hrun. unfold all_outcome in Hrun. cbn in Hrun.
      destruct (callback "yt-dlp --version" _) as [v1|e1],
               (callback "ffmpeg -version" _) as [v2|e2];
        cbn in Hrun; injection Hrun as <-; discriminate C.
    + now destruct (sound _ _ _ Hrun C) as [-> _].
  - exfalso. cbn in Hrun. unfold all_outcome in Hrun. cbn in Hrun.
    destruct (callback "yt-dlp --version" _) as [v1|e1],
             (callback "ffmpeg -version" _) as [v2|e2]; discriminate.
Qed.

Lemma checkDependencies_iff_both_succeed_witness :
  match run_events ffmpeg_missing [Wake 1 Close; Resume; Wake 0 Close]
          (checkDependencies world0) with
  | Some st =>
      caller_state st = Returned (Fulfilled (JS.boolean false))
      /\ console (trace st) = [missing_dependencies]
  | None => False
  end.
Proof.
  pose proof (proj1 (checkDependencies_iff_both_succeed ffmpeg_missing world0)
                [Wake 1 Close; Resume; Wake 0 Close]) as sound.
  destruct (run_events ffmpeg_missing [Wake 1 Close; Resume; Wake 0 Close]
              (checkDependencies world0)) as [st|] eqn:Hrun.
  - destruct (caller_state st) as [k|r] eqn:C.
    + vm_compute in Hrun. injection Hrun as <-. discriminate C.
    + destruct (sound st r eq_refl C) as (-> & -> & _). split; reflexivity.
  - vm_compute in Hrun. discriminate Hrun.
Defined.

(** ** C5 *)

Lemma reports_reactions (p : promise) (index : nat) :
  reports index (bind p (reactions index)).
Proof.
  induction p as [r|c k IH|ms k IH|l k IH|k IH]; cbn; auto.
  destruct r as [v|e]; cbn; left; split; auto.
  - now left.
  - right. now exists e.
Qed.

Lemma advance_grows (p : promise) :
  forall w l, In l (console w) -> In l (console (snd (advance p w))).
Proof.
  induction p as [r|c k IH|ms k IH|l' k IH|k IH]; intros w l Hin; cbn; auto.
  apply IH. cbn. apply in_or_app. now left.
Qed.

Lemma advance_ok (p : promise) (index : nat) :
  forall w, reports index p ->
            task_ok index (fst (advance p w)) (snd (advance p w)).
Proof.
  induction p as [r|c k IH|ms k IH|l k IH|k IH]; intros w Hp; cbn in *; auto.
  - destruct Hp.
  - destruct Hp as [[Hl ->]|Hk]; [|now apply IH].
    cbn. split; [reflexivity|]. exists l. split; [exact Hl|].
    apply in_or_app. right. now left.
Qed.

Lemma task_ok_mono index t w w' :
  (forall l, In l (console w) -> In l (console w')) ->
  task_ok index t w -> task_ok index t w'.
Proof.
  intros grows. destruct t as [r|pid k|k|k]; cbn; auto.
  intros [-> (l & Hl & Hin)]. split; [reflexivity|]. exists l. auto.
Qed.

Lemma tasks_ok_mono ts :
  forall index w w',
    (forall l, In l (console w) -> In l (console w')) ->
    tasks_ok index ts w -> tasks_ok index ts w'.
Proof.
  induction ts as [|t ts IH]; intros index w w' grows; cbn; auto.
  intros [Ht Hts]. split; [eapply task_ok_mono | eapply IH]; eassumption.
Qed.

Lemma note_ok index t w rej : task_ok index t w -> note t rej = rej.
Proof.
  destruct t as [[v|e]|pid k|k|k], rej; cbn; auto.
  intros [H _]. discriminate.
Qed.

Lemma start_all_ok (downloadPlaylist : argument -> promise) items :
  forall index rej w,
    let '(ts, rej', w') :=
      start_all (downloadPromises downloadPlaylist index items) rej w in
    List.length ts = List.length items
    /\ tasks_ok index ts w'
    /\ rej' = rej
    /\ (forall l, In l (console w) -> In l (console w')).
Proof.
  induction items as [|item items IH]; intros index rej w; cbn.
  - auto.
  - pose proof (advance_ok _ index w
                  (reports_reactions (downloadPlaylist item) index)) as Ht.
    pose proof (advance_grows
                  (bind (downloadPlaylist item) (reactions index)) w) as Hg.
    destruct (advance _ w) as [t w1]. cbn in Ht, Hg.
    specialize (IH (S index) (note t rej) w1).
    destruct (start_all _ (note t rej) w1) as [[ts rej'] w2].
    destruct IH as (Hlen & Hts & Hrej & Hgrow).
    split; [cbn; now rewrite Hlen|].
    split; [split; [eapply task_ok_mono; eassumption | assumption]|].
    split; [rewrite Hrej; eapply note_ok; eassumption | auto].
Qed.

Lemma tasks_ok_nth ts :
  forall base i t w,
    tasks_ok base ts w -> nth_error ts i = Some t -> task_ok (base + i) t w.
Proof.
  induction ts as [|t' ts IH]; intros base i t w Hts Hn.
  - now destruct i.
  - destruct Hts as [Ht Hts]. destruct i as [|i]; cbn in Hn.
    + injection Hn as <-. now rewrite Nat.add_0_r.
    + rewrite Nat.add_succ_r. apply (IH (S base) i t w Hts Hn).
Qed.

Lemma tasks_ok_replace ts :
  forall base i t w,
    tasks_ok base ts w -> task_ok (base + i) t w ->
    tasks_ok base (replace i t ts) w.
Proof.
  induction ts as [|t' ts IH]; intros base i t w Hts Ht;
    [now destruct i|].
  destruct Hts as [Ht' Hts]. destruct i as [|i]; cbn.
  - rewrite Nat.add_0_r in Ht. auto.
  - split; [assumption|]. apply IH; [assumption|].
    now rewrite Nat.add_succ_r in Ht.
Qed.

Lemma replace_length {X} (l : list X) :
  forall i x, List.length (replace i x l) = List.length l.
Proof.
  induction l as [|y l IH]; intros [|i] x; cbn; auto.
Qed.



Lemma wake_reports launcher index s t w p :
  task_ok index t w -> wake launcher s t = Some p -> reports index p.
Proof.
  destruct s, t as [r|pid k|k|k]; cbn; intros Ht Hw; try discriminate;
    injection Hw as <-; auto.
Qed.

Lemma values_settled ts :
  forall vs, values ts = Some vs -> Forall is_settled ts.
Proof.
  induction ts as [|t ts IH]; intros vs Hv; [constructor|].
  destruct t as [[v|e]|pid k|k|k]; cbn in Hv; try discriminate.
  destruct (values ts) as [vs'|]; [|discriminate].
  constructor; [now exists (Fulfilled v) | eapply IH; reflexivity].
Qed.


Lemma wake_settled launcher s r : wake launcher s (Settled r) = None.
Proof. now destruct s. Qed.

Lemma batch_inv_step launcher n ev st st' :
  batch_inv n st -> step launcher ev st = Some st' -> batch_inv n st'.
Proof.
  intros (Hlen & Hts & Hrej & Hc) Hstep.
  destruct ev as [i s|]; unfold step in Hstep.
  - destruct (nth_error (tasks st) i) as [t|] eqn:Hn; [|discriminate].
    destruct (wake launcher s t) as [p|] eqn:Hw; [|discriminate].
    pose proof (tasks_ok_nth _ 0 i t _ Hts Hn) as Ht. cbn in Ht.
    pose proof (advance_ok p i (trace st) (wake_reports _ _ _ _ _ _ Ht Hw)) as Ht'.
    pose proof (advance_grows p (trace st)) as Hg.
    destruct (advance p (trace st)) as [t' w']. cbn in Ht', Hg.
    injection Hstep as <-. unfold batch_inv. cbn [tasks rejection caller_state trace].
    split; [now rewrite replace_length|].
    split; [apply tasks_ok_replace; [eapply tasks_ok_mono; eassumption | exact Ht']|].
    split; [rewrite Hrej; eapply note_ok; exact Ht'|].
    destruct Hc as [Hc|[Hc Hall]]; [now left|].
    exfalso. rewrite Forall_forall in Hall.
    destruct (Hall t (nth_error_In _ _ Hn)) as [r ->].
    rewrite wake_settled in Hw. discriminate.
  - destruct (caller_state st) as [k|r] eqn:C; [|discriminate].
    destruct Hc as [Hc|[Hc _]]; [|discriminate].
    injection Hc as ->. unfold all_outcome in Hstep. rewrite Hrej in Hstep.
    destruct (values (tasks st)) as [vs|] eqn:Hv; [|discriminate].
    cbn in Hstep. injection Hstep as <-.
    unfold batch_inv. cbn [tasks rejection caller_state trace].
    split; [assumption|].
    split; [eapply tasks_ok_mono; [|eassumption]|].
    { intros l Hin. cbn. apply in_or_app. now left. }
    split; [reflexivity|]. right. split; [reflexivity|].
    eapply values_settled; eassumption.
Qed.


Lemma batch_inv_start downloadPlaylist items w :
  items <> [] ->
  batch_inv (List.length items)
    (downloadMultiplePlaylists downloadPlaylist (Array items) w).
Proof.
  intros nonempty. unfold downloadMultiplePlaylists. cbn [isArray elements negb orb].
  destruct items as [|item items]; [contradiction|]. cbn [List.length Nat.eqb].
  unfold await_all.
  pose proof (start_all_ok downloadPlaylist (item :: items) 0 None
                (do_print (log ("Starting download of "
                                ++ show_nat (List.length (item :: items))
                                ++ " playlists...")) w)) as H.
  cbn [List.length] in H.
  destruct (start_all _ None _) as [[ts rej] w'].
  destruct H as (Hlen & Hts & Hrej & _).
  unfold batch_inv. cbn [tasks rejection caller_state trace]. auto.
Qed.

(** *** No schedule goes on for ever *)













Lemma wakes_le_relay n (cs : list chunk) (k : promise) :
  wakes_le n k -> wakes_le n (YoutubeDownloader.relay cs k).
Proof. induction cs as [|[data|data] cs IH]; cbn; auto. Qed.



Lemma legacy_playlist_wakes this a :
  wakes_le 1 (YoutubeDownloader.downloadPlaylist this a).
Proof.
  unfold YoutubeDownloader.downloadPlaylist.
  destruct (destructure "playlistUrl" a) as [c|e]; [|exact I].
  destruct (JS.truthy (playlistUrl c)); cbn; [|exact I].
  intros child. apply wakes_le_relay. now destruct (code_is (exit child) 0).
Qed.

Lemma batch_start downloadPlaylist items w :
  items <> [] ->
  downloadMultiplePlaylists downloadPlaylist (Array items) w
  = await_all (downloadPromises downloadPlaylist 0 items) after_downloads
      (do_print (log ("Starting download of " ++ show_nat (List.length items)
                      ++ " playlists...")) w).
Proof.
  intros nonempty. unfold downloadMultiplePlaylists.
  destruct items as [|item items]; [contradiction | reflexivity].
Qed.






(** * Further properties *)

(** ** The retry loops, for any sequence of outcomes *)

Lemma run_relay {A} launcher (cs : list chunk) :
  forall (k : prog A) w,
    run launcher (YoutubeDownloader.relay cs k) w
    = run launcher k (print_all (relayed cs) w).
Proof.
  induction cs as [|[data|data] cs IH]; intros k w; simpl.
  - now rewrite print_all_nil.
  - rewrite IH. f_equal. unfold print_all, do_print; simpl. now rewrite <- app_assoc.
  - rewrite IH. f_equal. unfold print_all, do_print; simpl. now rewrite <- app_assoc.
Qed.

(** One iteration of each loop, as it runs. *)
Lemma retry_loop_attempt launcher command k w :
  k < maxRetries ->
  run launcher (YoutubeDownloader.retry_loop command k) w
  = let child := launcher (List.length (launched w)) in
    let w1 := print_all (relayed (chunks child)) (do_exec command w) in
    if succeeded child
    then (Fulfilled (JS.str "Video download completed successfully"), w1)
    else if (k + 1 =? maxRetries)%nat
         then (Rejected (JS.Error (YoutubeDownloader.errorMessage k (exit child)
                                     (stderr_text (chunks child)))), w1)
         else run launcher (YoutubeDownloader.retry_loop command (k + 1))
                (do_timer 2000
                   (do_print (log ("Retry attempt " ++ show_nat (k + 1) ++ "/"
                                   ++ show_nat maxRetries ++ "...")) w1)).
Proof.
  intros H. rewrite (retry_loop_step command k H). cbn [run].
  rewrite run_on_data. cbn zeta. unfold succeeded.
  destruct (code_is _ 0); [reflexivity|].
  destruct (k + 1 =? maxRetries)%nat; reflexivity.
Qed.

Lemma hardened_loop_attempt launcher resolved command k w :
  k < maxRetries ->
  run launcher (hardened_loop resolved command k) w
  = let child := launcher (List.length (launched w)) in
    let w1 := print_all (relayed (chunks child)) (do_exec command w) in
    if accepted child
    then (Fulfilled (JS.str resolved), w1)
    else
      let w2 := do_print (log ("Retry attempt " ++ show_nat (k + 1) ++ "/"
                               ++ show_nat maxRetries ++ "...")) w1 in
      if (k + 1 =? maxRetries)%nat
      then (Rejected (JS.Error (hardenedMessage (exit child)
                                  (stderr_text (chunks child)))), w2)
      else run launcher (hardened_loop resolved command (k + 1))
             (do_timer (5000 * Z.of_nat (k + 1)) w2).
Proof.
  intros H. rewrite (hardened_loop_step resolved command k H). cbn [run].
  rewrite run_on_data. cbn zeta. unfold accepted.
  destruct (code_is _ 0 || code_is _ 1); [reflexivity|]. cbn [run].
  destruct (k + 1 =? maxRetries)%nat; reflexivity.
Qed.

Lemma nth_run_shift launcher w w2 (c : string) j :
  launched w2 = (launched w ++ [c])%list ->
  nth_run launcher w2 j = nth_run launcher w (S j).
Proof.
  intros H. unfold nth_run. rewrite H, length_app. f_equal. simpl. lia.
Qed.

Lemma nth_run_0 launcher w :
  nth_run launcher w 0 = launcher (List.length (launched w)).
Proof. unfold nth_run. now rewrite Nat.add_0_r. Qed.

Lemma relays_more w w' child more :
  console w' = (console w ++ more)%list -> relays w child -> relays w' child.
Proof.
  intros H (before & after & E). exists before, (after ++ more)%list.
  now rewrite H, E, <- !app_assoc.
Qed.

Lemma retry_loop_law launcher command :
  forall m k w, k + m = maxRetries -> 1 <= m ->
    exists r w' n,
      run launcher (YoutubeDownloader.retry_loop command k) w = (r, w')
      /\ 1 <= n <= m
      /\ (exists more, console w' = (console w ++ more)%list)
      /\ attempts_made launcher command succeeded w w' n (List.repeat 2000%Z (n - 1))
      /\ attempts_and_delays
           (history launcher (YoutubeDownloader.retry_loop command k)
              (List.length (launched w)))
         = spaced command (List.repeat 2000%Z (n - 1))
      /\ match r with
         | Fulfilled v =>
             v = JS.str "Video download completed successfully"
             /\ succeeded (nth_run launcher w (n - 1)) = true
         | Rejected e =>
             n = m
             /\ succeeded (nth_run launcher w (n - 1)) = false
             /\ e = JS.Error (YoutubeDownloader.errorMessage 2
                                (exit (nth_run launcher w (n - 1)))
                                (stderr_text (chunks (nth_run launcher w (n - 1)))))
         end.
Proof.
  induction m as [|m IH]; intros k w Hk Hm; [lia|].
  rewrite retry_loop_attempt by lia. cbn zeta.
  rewrite retry_loop_order by lia.
  rewrite <- (nth_run_0 launcher w).
  destruct (succeeded (nth_run launcher w 0)) eqn:E.
  - eexists _, _, 1. split; [reflexivity|]. split; [lia|].
    split; [now exists (relayed (chunks (nth_run launcher w 0)))|].
    split; [|split; [reflexivity | auto]].
    repeat split; cbn; try (now rewrite ?app_nil_r); try (intros i Hi; lia).
    intros i Hi. assert (i = 0) as -> by lia.
    exists (console w), []. now rewrite app_nil_r.
  - destruct (k + 1 =? maxRetries)%nat eqn:K.
    + apply Nat.eqb_eq in K. assert (m = 0) as -> by lia.
      assert (k = 2) as -> by (unfold maxRetries in *; lia).
      eexists _, _, 1. split; [reflexivity|]. split; [lia|].
      split; [now exists (relayed (chunks (nth_run launcher w 0)))|].
      split; [|split; [reflexivity | auto]].
      repeat split; cbn; try (now rewrite ?app_nil_r); try (intros i Hi; lia).
      intros i Hi. assert (i = 0) as -> by lia.
      exists (console w), []. now rewrite app_nil_r.
    + apply Nat.eqb_neq in K.
      match goal with |- context [run launcher _ ?w2] => set (w2' := w2) end.
      assert (L2 : launched w2' = (launched w ++ [command])%list) by reflexivity.
      assert (C2 : console w2'
                   = (console w ++ relayed (chunks (nth_run launcher w 0))
                        ++ [log ("Retry attempt " ++ show_nat (k + 1) ++ "/"
                                 ++ show_nat maxRetries ++ "...")])%list).
      { subst w2'. cbn. now rewrite <- app_assoc. }
      destruct (IH (k + 1) w2' ltac:(lia) ltac:(lia))
        as (r & w' & n & Hrun & Hn & (more & Hmore) & (Hl & Ht & Hf & Hr)
            & Ho & Hres).
      exists r, w', (S n). split; [exact Hrun|]. split; [lia|].
      split.
      { eexists. rewrite Hmore, C2, <- !app_assoc. reflexivity. }
      split.
      { split; [|split; [|split]].
        - rewrite Hl, L2, <- app_assoc. reflexivity.
        - rewrite Ht. subst w2'. cbn [timers do_timer do_print print_all do_exec].
          rewrite <- app_assoc. f_equal.
          destruct n as [|n]; [lia|]. cbn. now rewrite Nat.sub_0_r.
        - intros [|i] Hi; [exact E|].
          rewrite <- (nth_run_shift launcher w w2' command i L2).
          apply Hf. lia.
        - intros [|i] Hi.
          + eapply relays_more; [exact Hmore|].
            eexists (console w), _. rewrite C2. reflexivity.
          + rewrite <- (nth_run_shift launcher w w2' command i L2).
            apply Hr. lia. }
      split.
      { rewrite L2, length_app in Ho. cbn [List.length] in Ho.
        rewrite (Nat.add_1_r (List.length (launched w))) in Ho. rewrite Ho.
        replace (S n - 1) with (S (n - 1)) by lia. reflexivity. }
      replace (S n - 1) with (S (n - 1)) by lia.
      rewrite <- (nth_run_shift launcher w w2' command (n - 1) L2).
      destruct r as [v|e]; [exact Hres|].
      destruct Hres as (-> & H1 & H2). auto.
Qed.

Lemma hardened_loop_law launcher resolved command :
  forall m k w, k + m = maxRetries -> 1 <= m ->
    exists r w' n,
      run launcher (hardened_loop resolved command k) w = (r, w')
      /\ 1 <= n <= m
      /\ (exists more, console w' = (console w ++ more)%list)
      /\ attempts_made launcher command accepted w w' n
           (List.map (fun attempt => (5000 * Z.of_nat attempt)%Z)
              (List.seq (k + 1) (n - 1)))
      /\ attempts_and_delays
           (history launcher (hardened_loop resolved command k)
              (List.length (launched w)))
         = spaced command
             (List.map (fun attempt => (5000 * Z.of_nat attempt)%Z)
                (List.seq (k + 1) (n - 1)))
      /\ match r with
         | Fulfilled v =>
             v = JS.str resolved
             /\ accepted (nth_run launcher w (n - 1)) = true
         | Rejected e =>
             n = m
             /\ accepted (nth_run launcher w (n - 1)) = false
             /\ e = JS.Error (hardenedMessage
                                (exit (nth_run launcher w (n - 1)))
                                (stderr_text (chunks (nth_run launcher w (n - 1)))))
         end.
Proof.
  induction m as [|m IH]; intros k w Hk Hm; [lia|].
  rewrite hardened_loop_attempt by lia. cbn zeta.
  rewrite hardened_loop_order by lia.
  rewrite <- (nth_run_0 launcher w).
  destruct (accepted (nth_run launcher w 0)) eqn:E.
  - eexists _, _, 1. split; [reflexivity|]. split; [lia|].
    split; [now exists (relayed (chunks (nth_run launcher w 0)))|].
    split; [|split; [reflexivity | auto]].
    repeat split; cbn; try (now rewrite ?app_nil_r); try (intros i Hi; lia).
    intros i Hi. assert (i = 0) as -> by lia.
    exists (console w), []. now rewrite app_nil_r.
  - destruct (k + 1 =? maxRetries)%nat eqn:K.
    + apply Nat.eqb_eq in K. assert (m = 0) as -> by lia.
      eexists _, _, 1. split; [reflexivity|]. split; [lia|].
      split; [eexists; cbn; rewrite <- app_assoc; reflexivity|].
      split; [|split; [reflexivity | auto]].
      repeat split; cbn; try (now rewrite ?app_nil_r); try (intros i Hi; lia).
      intros i Hi. assert (i = 0) as -> by lia.
      eexists (console w), _. unfold do_print, print_all. cbn [console].
      rewrite <- app_assoc. reflexivity.
    + apply Nat.eqb_neq in K.
      match goal with |- context [run launcher _ ?w2] => set (w2' := w2) end.
      assert (L2 : launched w2' = (launched w ++ [command])%list) by reflexivity.
      assert (C2 : console w2'
                   = (console w ++ relayed (chunks (nth_run launcher w 0))
                        ++ [log ("Retry attempt " ++ show_nat (k + 1) ++ "/"
                                 ++ show_nat maxRetries ++ "...")])%list).
      { subst w2'. cbn. now rewrite <- app_assoc. }
      destruct (IH (k + 1) w2' ltac:(lia) ltac:(lia))
        as (r & w' & n & Hrun & Hn & (more & Hmore) & (Hl & Ht & Hf & Hr)
            & Ho & Hres).
      exists r, w', (S n). split; [exact Hrun|]. split; [lia|].
      split.
      { eexists. rewrite Hmore, C2, <- !app_assoc. reflexivity. }
      split.
      { split; [|split; [|split]].
        - rewrite Hl, L2, <- app_assoc. reflexivity.
        - rewrite Ht. subst w2'. cbn [timers do_timer do_print print_all do_exec].
          rewrite <- app_assoc. f_equal.
          destruct n as [|n]; [lia|]. cbn [Nat.sub List.seq List.map app].
          rewrite Nat.sub_0_r. now replace (S (k + 1)) with (k + 1 + 1) by lia.
        - intros [|i] Hi; [exact E|].
          rewrite <- (nth_run_shift launcher w w2' command i L2).
          apply Hf. lia.
        - intros [|i] Hi.
          + eapply relays_more; [exact Hmore|].
            eexists (console w), _. rewrite C2. reflexivity.
          + rewrite <- (nth_run_shift launcher w w2' command i L2).
            apply Hr. lia. }
      split.
      { rewrite L2, length_app in Ho. cbn [List.length] in Ho.
        rewrite (Nat.add_1_r (List.length (launched w))) in Ho. rewrite Ho.
        replace (S n - 1) with (S (n - 1)) by lia.
        cbn [List.seq List.map spaced delayed].
        now replace (S (k + 1)) with (k + 1 + 1) by lia. }
      replace (S n - 1) with (S (n - 1)) by lia.
      rewrite <- (nth_run_shift launcher w w2' command (n - 1) L2).
      destruct r as [v|e]; [exact Hres|].
      destruct Hres as (-> & H1 & H2). auto.
Qed.

(** The loops read the world only through its launches. *)
Lemma attempts_made_prefix launcher command ok w0 w w' n delays :
  launched w = launched w0 -> timers w = timers w0 ->
  attempts_made launcher command ok w w' n delays ->
  attempts_made launcher command ok w0 w' n delays.
Proof.
  intros L T (Hl & Ht & Hf & Hr). unfold attempts_made, nth_run in *.
  rewrite L in *. rewrite T in *. auto.
Qed.

(** X1.  [YoutubeDownloader.downloadSingleVideo], on a configuration with a
    URL and for any behaviour of the processes: it makes [n] attempts,
    between 1 and 3, launching the one command it built [n] times and
    sleeping 2000 ms [n - 1] times, each sleep between one attempt and the
    next; every attempt before the last ended in a non-zero exit, each
    process's chunks were relayed to the console, and it resolves exactly
    when the last process exited with 0; it rejects only after the third
    attempt, with that attempt's message. *)
Theorem single_video_stops_at_first_success (this : downloader) (c : config)
  (launcher : nat -> proc_run) (w : world) :
  JS.truthy (videoUrl c) = true ->
  exists r w' n,
    run launcher (YoutubeDownloader.downloadSingleVideo this (Obj c)) w = (r, w')
    /\ 1 <= n <= 3
    /\ attempts_made launcher (YoutubeDownloader.command this c) succeeded
         w w' n (List.repeat 2000%Z (n - 1))
    /\ attempts_and_delays
         (history launcher (YoutubeDownloader.downloadSingleVideo this (Obj c))
            (List.length (launched w)))
       = spaced (YoutubeDownloader.command this c) (List.repeat 2000%Z (n - 1))
    /\ match r with
       | Fulfilled v =>
           v = JS.str "Video download completed successfully"
           /\ succeeded (nth_run launcher w (n - 1)) = true
       | Rejected e =>
           n = 3
           /\ succeeded (nth_run launcher w 2) = false
           /\ e = JS.Error (YoutubeDownloader.errorMessage 2
                              (exit (nth_run launcher w 2))
                              (stderr_text (chunks (nth_run launcher w 2))))
       end.
Proof.
  intros url. rewrite (single_with_url this c url). cbn [run].
  match goal with |- context [run launcher _ ?w1] => set (w1' := w1) end.
  destruct (retry_loop_law launcher (YoutubeDownloader.command this c) 3 0 w1'
              eq_refl ltac:(lia))
    as (r & w' & n & Hrun & Hn & _ & Hmade & Ho & Hres).
  exists r, w', n. split; [exact Hrun|]. split; [exact Hn|].
  split; [apply (attempts_made_prefix _ _ _ w w1'); auto|].
  split; [exact Ho|].
  destruct r as [v|e]; [exact Hres|].
  destruct Hres as (-> & H1 & H2). auto.
Qed.

Lemma single_video_stops_at_first_success_witness :
  exists w',
    run fails_once (YoutubeDownloader.downloadSingleVideo
                      (YoutubeDownloader.new "/d") (Obj a_video)) world0
    = (Fulfilled (JS.str "Video download completed successfully"), w')
    /\ List.length (launched w') = 2
    /\ timers w' = [2000%Z]
    /\ attempts_and_delays
         (history fails_once
            (YoutubeDownloader.downloadSingleVideo
               (YoutubeDownloader.new "/d") (Obj a_video)) 0)
       = [ Launch (YoutubeDownloader.command (YoutubeDownloader.new "/d") a_video);
           Wait 2000;
           Launch (YoutubeDownloader.command (YoutubeDownloader.new "/d") a_video) ].
Proof.
  destruct (single_video_stops_at_first_success
              (YoutubeDownloader.new "/d") a_video fails_once world0
              eq_refl)
    as (r & w' & n & Hrun & Hn & (Hl & Ht & Hf & _) & Ho & Hres).
  assert (n = 2) as ->.
  { destruct n as [|[|[|[|n]]]]; try lia.
    - destruct r as [v|e]; [destruct Hres as [_ H] | destruct Hres as [H _]];
        discriminate H.
    - specialize (Hf 1 ltac:(lia)). discriminate Hf. }
  destruct r as [v|e]; [|destruct Hres as [H _]; discriminate H].
  destruct Hres as [-> _]. exists w'. split; [exact Hrun|].
  rewrite Hl, Ht. split; [reflexivity|]. split; [reflexivity|].
  exact Ho.
Defined.

(** X2.  The hardened [downloadPlaylist] and [downloadSingleVideo], on a
    configuration with a URL and for any behaviour of the processes: [n]
    attempts, between 1 and 3, of the one command; a delay of 5000 ms
    between the first attempt and the second, and of 10000 ms between the
    second and the third; every attempt before the last ended in an exit
    code other than 0 and 1; each process's chunks were relayed; the call
    resolves exactly when the last process exited with 0 or 1, and rejects
    only after the third attempt, with that attempt's message. *)
Theorem hardened_stops_at_first_accepted (this : downloader) (c : config)
  (launcher : nat -> proc_run) (w : world) :
  (JS.truthy (playlistUrl c) = true ->
   exists r w' n,
     run launcher (YoutubePlaylistDownloader.downloadPlaylist this (Obj c)) w
     = (r, w')
     /\ 1 <= n <= 3
     /\ attempts_made launcher (YoutubePlaylistDownloader.command this c)
          accepted w w' n (hardened_delays n)
     /\ attempts_and_delays
          (history launcher
             (YoutubePlaylistDownloader.downloadPlaylist this (Obj c))
             (List.length (launched w)))
        = spaced (YoutubePlaylistDownloader.command this c) (hardened_delays n)
     /\ match r with
        | Fulfilled v =>
            v = JS.str "Download completed with some videos"
            /\ accepted (nth_run launcher w (n - 1)) = true
        | Rejected e =>
            n = 3
            /\ accepted (nth_run launcher w 2) = false
            /\ e = JS.Error (hardenedMessage (exit (nth_run launcher w 2))
                               (stderr_text (chunks (nth_run launcher w 2))))
        end)
  /\ (JS.truthy (videoUrl c) = true ->
      exists r w' n,
        run launcher (HardenedSingleDownloader.downloadSingleVideo this (Obj c)) w
        = (r, w')
        /\ 1 <= n <= 3
        /\ attempts_made launcher (HardenedSingleDownloader.command this c)
             accepted w w' n (hardened_delays n)
        /\ attempts_and_delays
             (history launcher
                (HardenedSingleDownloader.downloadSingleVideo this (Obj c))
                (List.length (launched w)))
           = spaced (HardenedSingleDownloader.command this c) (hardened_delays n)
        /\ match r with
           | Fulfilled v =>
               v = JS.str "Download completed successfully"
               /\ accepted (nth_run launcher w (n - 1)) = true
           | Rejected e =>
               n = 3
               /\ accepted (nth_run launcher w 2) = false
               /\ e = JS.Error (hardenedMessage (exit (nth_run launcher w 2))
                                  (stderr_text (chunks (nth_run launcher w 2))))
           end).
Proof.
  split; intros url.
  - rewrite (playlist_with_url this c url). cbn [run].
    match goal with |- context [run launcher _ ?w1] => set (w1' := w1) end.
    destruct (hardened_loop_law launcher "Download completed with some videos"
                (YoutubePlaylistDownloader.command this c) 3 0 w1'
                eq_refl ltac:(lia))
      as (r & w' & n & Hrun & Hn & _ & Hmade & Ho & Hres).
    exists r, w', n. split; [exact Hrun|]. split; [exact Hn|].
    split; [apply (attempts_made_prefix _ _ _ w w1'); auto|].
    split; [exact Ho|].
    destruct r as [v|e]; [exact Hres|].
    destruct Hres as (-> & H1 & H2). auto.
  - rewrite (hardened_single_with_url this c url). cbn [run].
    match goal with |- context [run launcher _ ?w1] => set (w1' := w1) end.
    destruct (hardened_loop_law launcher "Download completed successfully"
                (HardenedSingleDownloader.command this c) 3 0 w1'
                eq_refl ltac:(lia))
      as (r & w' & n & Hrun & Hn & _ & Hmade & Ho & Hres).
    exists r, w', n. split; [exact Hrun|]. split; [exact Hn|].
    split; [apply (attempts_made_prefix _ _ _ w w1'); auto|].
    split; [exact Ho|].
    destruct r as [v|e]; [exact Hres|].
    destruct Hres as (-> & H1 & H2). auto.
Qed.

Lemma hardened_stops_at_first_accepted_witness :
  (exists w',
     run fails_once (YoutubePlaylistDownloader.downloadPlaylist
                       (YoutubePlaylistDownloader.new "/d") (Obj a_playlist))
       world0
     = (Fulfilled (JS.str "Download completed with some videos"), w')
     /\ List.length (launched w') = 2
     /\ timers w' = [5000%Z]
     /\ attempts_and_delays
          (history fails_once
             (YoutubePlaylistDownloader.downloadPlaylist
                (YoutubePlaylistDownloader.new "/d") (Obj a_playlist)) 0)
        = [ Launch (YoutubePlaylistDownloader.command
                      (YoutubePlaylistDownloader.new "/d") a_playlist);
            Wait 5000;
            Launch (YoutubePlaylistDownloader.command
                      (YoutubePlaylistDownloader.new "/d") a_playlist) ])
  /\ (exists w',
        run fails_once (HardenedSingleDownloader.downloadSingleVideo
                          (HardenedSingleDownloader.new "/d") (Obj a_video))
          world0
        = (Fulfilled (JS.str "Download completed successfully"), w')
        /\ List.length (launched w') = 2
        /\ timers w' = [5000%Z]).
Proof.
  split.
  - destruct (proj1 (hardened_stops_at_first_accepted
                       (YoutubePlaylistDownloader.new "/d") a_playlist
                       fails_once world0) eq_refl)
      as (r & w' & n & Hrun & Hn & (Hl & Ht & Hf & _) & Ho & Hres).
    assert (n = 2) as ->.
    { destruct n as [|[|[|[|n]]]]; try lia.
      - destruct r as [v|e]; [destruct Hres as [_ H] | destruct Hres as [H _]];
          discriminate H.
      - specialize (Hf 1 ltac:(lia)). discriminate Hf. }
    destruct r as [v|e]; [|destruct Hres as [H _]; discriminate H].
    destruct Hres as [-> _]. exists w'. split; [exact Hrun|].
    rewrite Hl, Ht. split; [reflexivity|]. split; [reflexivity|].
    exact Ho.
  - destruct (proj2 (hardened_stops_at_first_accepted
                       (HardenedSingleDownloader.new "/d") a_video
                       fails_once world0) eq_refl)
      as (r & w' & n & Hrun & Hn & (Hl & Ht & Hf & _) & _ & Hres).
    assert (n = 2) as ->.
    { destruct n as [|[|[|[|n]]]]; try lia.
      - destruct r as [v|e]; [destruct Hres as [_ H] | destruct Hres as [H _]];
          discriminate H.
      - specialize (Hf 1 ltac:(lia)). discriminate Hf. }
    destruct r as [v|e]; [|destruct Hres as [H _]; discriminate H].
    destruct Hres as [-> _]. exists w'. split; [exact Hrun|].
    rewrite Hl, Ht. split; reflexivity.
Defined.

(** ** The first-generation [downloadPlaylist] *)

(** X3.  [YoutubeDownloader.downloadPlaylist] does not retry: on a
    configuration with a URL it launches its command once and sets no timer,
    whatever the process does; it resolves when the exit code is 0 and
    otherwise (exit code 1 included) rejects with a message that carries the
    code and nothing of what the process wrote to stderr. *)
Theorem legacy_playlist_launches_once (this : downloader) (c : config)
  (launcher : nat -> proc_run) (w : world) :
  JS.truthy (playlistUrl c) = true ->
  let child := launcher (List.length (launched w)) in
  run launcher (YoutubeDownloader.downloadPlaylist this (Obj c)) w
  = (if succeeded child
     then Fulfilled (JS.str "Download completed successfully")
     else Rejected (JS.Error ("Download failed with code "
                              ++ show_code (exit child))),
     mkWorld (launched w ++ [YoutubeDownloader.playlistCommand this c])
             (timers w)
             (console w ++ relayed (chunks child))).
Proof.
  intros url child. unfold YoutubeDownloader.downloadPlaylist.
  cbn [destructure]. rewrite url. cbn [negb run]. rewrite run_relay.
  fold child. unfold succeeded. now destruct (code_is (exit child) 0).
Qed.

Lemma legacy_playlist_launches_once_witness :
  exists w',
    run (exits 1) (LegacyPlaylistDownloader.downloadPlaylist
                     (LegacyPlaylistDownloader.new "/d") (Obj a_playlist))
      world0
    = (Rejected (JS.Error "Download failed with code 1"), w')
    /\ List.length (launched w') = 1
    /\ timers w' = [].
Proof.
  eexists. split.
  - apply (legacy_playlist_launches_once (LegacyPlaylistDownloader.new "/d")
             a_playlist (exits 1) world0 eq_refl).
  - split; reflexivity.
Defined.

(** ** Arguments that are not configuration objects *)

(** X4.  Called with a primitive value instead of a configuration object
    (the URL itself as a string, say), each download method rejects with its
    "URL is required" error; called with [undefined] or [null] it rejects
    with the [TypeError] of the parameter pattern.  In both cases nothing is
    launched or printed. *)
Theorem non_object_argument_rejected (this : downloader) (v : JS.value)
  (launcher : nat -> proc_run) (w : world) :
  let rejects (p : promise) (required : string) :=
    match v with
    | JS.undefined | JS.null =>
        exists m, run launcher p w = (Rejected (JS.TypeError m), w)
    | _ => run launcher p w = (Rejected (JS.Error required), w)
    end in
  rejects (YoutubeDownloader.downloadSingleVideo this (Prim v))
    "Video URL is required"
  /\ rejects (HardenedSingleDownloader.downloadSingleVideo this (Prim v))
       "Video URL is required"
  /\ rejects (YoutubeDownloader.downloadPlaylist this (Prim v))
       "Playlist URL is required"
  /\ rejects (YoutubePlaylistDownloader.downloadPlaylist this (Prim v))
       "Playlist URL is required".
Proof.
  destruct v; cbn; repeat split; eauto.
Qed.

(** ** The launches of a batch *)

Lemma launches_le_relay {A} n (cs : list chunk) (k : prog A) :
  launches_le n k -> launches_le n (YoutubeDownloader.relay cs k).
Proof. induction cs as [|[data|data] cs IH]; simpl; auto. Qed.

Lemma legacy_playlist_launches this a :
  launches_le 1 (YoutubeDownloader.downloadPlaylist this a).
Proof.
  unfold YoutubeDownloader.downloadPlaylist.
  destruct (destructure "playlistUrl" a) as [c|e]; [|exact I].
  destruct (JS.truthy (playlistUrl c)); cbn; [|exact I].
  intros child. apply launches_le_relay. now destruct (code_is (exit child) 0).
Qed.

Lemma launches_le_reactions (p : promise) (index : nat) :
  forall n, launches_le n p -> launches_le n (bind p (reactions index)).
Proof.
  induction p as [r|c k IH|ms k IH|l k IH|k IH]; intros n Hp; cbn in *; auto.
  - now destruct r.
  - destruct n as [|n]; [contradiction|]. intros child. apply IH, Hp.
Qed.

Lemma advance_launches (p : promise) :
  forall n w, launches_le n p ->
    exists n',
      task_launches_le n' (fst (advance p w))
      /\ List.length (launched (snd (advance p w))) + n'
         <= List.length (launched w) + n.
Proof.
  induction p as [r|c k IH|ms k IH|l k IH|k IH]; intros n w Hp; cbn in *.
  - exists 0. split; [exact I | lia].
  - destruct n as [|n]; [contradiction|]. exists n. split; [exact Hp|].
    rewrite length_app. cbn. lia.
  - exists n. split; [exact Hp | lia].
  - apply (IH n (do_print l w) Hp).
  - exists n. split; [exact Hp | lia].
Qed.

Lemma wake_launches launcher s t p n :
  task_launches_le n t -> wake launcher s t = Some p -> launches_le n p.
Proof.
  destruct s, t as [r|pid k|k|k]; cbn; intros Ht Hw; try discriminate;
    injection Hw as <-; auto.
Qed.

Lemma launch_budgets_replace ts :
  forall bs i t t' b n',
    launch_budgets bs ts -> nth_error ts i = Some t ->
    nth_error bs i = Some b -> task_launches_le n' t' ->
    launch_budgets (replace i n' bs) (replace i t' ts)
    /\ list_sum (replace i n' bs) + b = list_sum bs + n'.
Proof.
  induction ts as [|t0 ts IH]; intros [|b0 bs] i t t' b n' Hb Ht Hbi Ht';
    try (now destruct i); try contradiction.
  destruct Hb as [Hb0 Hbs]. destruct i as [|i]; cbn in Ht, Hbi.
  - injection Hbi as ->. unfold list_sum. cbn. split; [auto | lia].
  - destruct (IH bs i t t' b n' Hbs Ht Hbi Ht') as [Hok Hsum].
    unfold list_sum in *. cbn. split; [auto | lia].
Qed.

Lemma launch_budgets_nth ts :
  forall bs i t, launch_budgets bs ts -> nth_error ts i = Some t ->
                 exists b, nth_error bs i = Some b /\ task_launches_le b t.
Proof.
  induction ts as [|t' ts IH]; intros [|b bs] i t Hb Ht;
    try (now destruct i); try contradiction.
  destruct Hb as [Hb Hbs]. destruct i as [|i]; cbn in Ht.
  - injection Ht as <-. now exists b.
  - apply (IH bs i t Hbs Ht).
Qed.

Lemma start_all_launches (downloadPlaylist : argument -> promise) d items :
  (forall item, launches_le d (downloadPlaylist item)) ->
  forall index rej w,
    exists bs,
      launch_budgets bs
        (fst (fst (start_all (downloadPromises downloadPlaylist index items)
                     rej w)))
      /\ List.length
           (launched (snd (start_all
                             (downloadPromises downloadPlaylist index items)
                             rej w)))
         + list_sum bs
         <= List.length (launched w) + List.length items * d.
Proof.
  intros Hd. induction items as [|item items IH]; intros index rej w; cbn.
  - exists []. split; [exact I | cbn; lia].
  - destruct (advance_launches _ d w
                (launches_le_reactions _ index d (Hd item))) as (n' & Ht & Hn).
    destruct (advance _ w) as [t w1]. cbn in Ht, Hn.
    destruct (IH (S index) (note t rej) w1) as (bs & Hbs & Hsum).
    destruct (start_all _ (note t rej) w1) as [[ts rej'] w2].
    cbn [fst snd] in *. exists (n' :: bs). split; [split; assumption|].
    change (list_sum (n' :: bs)) with (n' + list_sum bs).
    cbn [List.length Nat.mul]. lia.
Qed.

Lemma launches_bounded launcher evs :
  forall st st' bs bound,
    launch_budgets bs (tasks st) ->
    List.length (launched (trace st)) + list_sum bs <= bound ->
    match caller_state st with
    | Awaiting k => k = after_downloads
    | Returned _ => True
    end ->
    run_events launcher evs st = Some st' ->
    List.length (launched (trace st')) <= bound.
Proof.
  induction evs as [|ev evs IH]; intros st st' bs bound Hb Hsum Hk Hrun;
    cbn in Hrun.
  - injection Hrun as <-. lia.
  - destruct (step launcher ev st) as [st1|] eqn:Hstep; [|discriminate].
    destruct ev as [i s|]; unfold step in Hstep.
    + destruct (nth_error (tasks st) i) as [t|] eqn:Hn; [|discriminate].
      destruct (wake launcher s t) as [p|] eqn:Hw; [|discriminate].
      destruct (launch_budgets_nth _ _ _ _ Hb Hn) as (b & Hbi & Hbt).
      destruct (advance_launches p b (trace st) (wake_launches _ _ _ _ _ Hbt Hw))
        as (n' & Ht' & Hle).
      destruct (advance p (trace st)) as [t' w'] eqn:Ha. cbn in Ht', Hle.
      destruct (launch_budgets_replace _ _ _ _ t' _ n' Hb Hn Hbi Ht')
        as [Hok Hs].
      injection Hstep as <-.
      apply (IH (mkLoop (replace i t' (tasks st)) (note t' (rejection st))
                   (caller_state st) w') st' (replace i n' bs) bound);
        cbn [tasks trace caller_state]; auto. lia.
    + destruct (caller_state st) as [k|r]; [|discriminate].
      destruct (all_outcome st) as [o|]; [|discriminate]. subst k.
      destruct (after_downloads o (trace st)) as [r w'] eqn:Ho.
      injection Hstep as <-.
      apply (IH (mkLoop (tasks st) (rejection st) (Returned r) w') st' bs bound);
        cbn [tasks trace caller_state]; auto.
      destruct o; cbn in Ho; injection Ho as <- <-; exact Hsum.
Qed.

Lemma batch_launches (downloadPlaylist : argument -> promise) d items
  launcher w evs st :
  (forall item, launches_le d (downloadPlaylist item)) ->
  items <> [] ->
  run_events launcher evs
    (downloadMultiplePlaylists downloadPlaylist (Array items) w) = Some st ->
  List.length (launched (trace st))
  <= List.length (launched w) + List.length items * d.
Proof.
  intros Hd nonempty Hrun. rewrite (batch_start _ _ _ nonempty) in Hrun.
  destruct (start_all_launches downloadPlaylist d items Hd 0 None
              (do_print (log ("Starting download of "
                              ++ show_nat (List.length items)
                              ++ " playlists...")) w)) as (bs & Hb & Hsum).
  unfold await_all in Hrun.
  destruct (start_all _ None _) as [[ts rej] w'].
  cbn in Hb, Hsum.
  apply (launches_bounded launcher evs
           (mkLoop ts rej (Awaiting after_downloads) w') st bs); auto.
  reflexivity.
Qed.

(** X5.  In every state a batch can reach, whatever the schedule and the
    processes, the launches made since the call are at most three per
    playlist with the retrying [downloadPlaylist], and at most one per
    playlist with the first-generation one. *)
Theorem batch_launches_are_bounded (this : downloader) (items : list argument)
  (launcher : nat -> proc_run) (w : world) (evs : list event) :
  items <> [] ->
  (forall st,
      run_events launcher evs
        (YoutubePlaylistDownloader.downloadMultiplePlaylists this (Array items) w)
      = Some st ->
      List.length (launched (trace st))
      <= List.length (launched w) + List.length items * 3)
  /\ (forall st,
      run_events launcher evs
        (YoutubeDownloader.downloadMultiplePlaylists this (Array items) w)
      = Some st ->
      List.length (launched (trace st))
      <= List.length (launched w) + List.length items * 1).
Proof.
  intros nonempty. split; intros st Hrun.
  - eapply batch_launches; [apply playlist_launches | exact nonempty | exact Hrun].
  - eapply batch_launches; [apply legacy_playlist_launches | exact nonempty
                           | exact Hrun].
Qed.

Lemma batch_launches_are_bounded_witness :
  match run_events second_fails one_schedule
          (YoutubePlaylistDownloader.downloadMultiplePlaylists
             (YoutubePlaylistDownloader.new "/d") (Array three_playlists)
             world0) with
  | Some st => 5 = List.length (launched (trace st))
               /\ List.length (launched (trace st)) <= 9
  | None => False
  end.
Proof.
  pose proof (proj1 (batch_launches_are_bounded
                       (YoutubePlaylistDownloader.new "/d") three_playlists
                       second_fails world0 one_schedule ltac:(discriminate)))
    as H.
  destruct (run_events second_fails one_schedule _) as [st|] eqn:Hrun.
  - split; [|exact (H st eq_refl)].
    vm_compute in Hrun. injection Hrun as <-. reflexivity.
  - vm_compute in Hrun. discriminate Hrun.
Defined.

(** ** What a batch has done when the call suspends *)

Lemma with_url_cons item rest :
  with_url (item :: rest) = (with_url [item] ++ with_url rest)%list.
Proof.
  destruct item as [v|c]; cbn; [reflexivity|].
  now destruct (JS.truthy (playlistUrl c)).
Qed.

Lemma playlist_first_step this item index w :
  let started := advance (bind (YoutubePlaylistDownloader.downloadPlaylist
                                  this item) (reactions index)) w in
  launched (snd started)
  = (launched w
     ++ List.map (YoutubePlaylistDownloader.command this) (with_url [item]))%list
  /\ timers (snd started) = timers w
  /\ ~ is_settled (fst started).
Proof.
  unfold YoutubePlaylistDownloader.downloadPlaylist.
  destruct item as [v|c].
  - destruct v; cbn; rewrite app_nil_r; repeat split; intros [r H];
      discriminate H.
  - cbn [destructure with_url]. destruct (JS.truthy (playlistUrl c)).
    + rewrite hardened_loop_step by (unfold maxRetries; lia). cbn.
      repeat split. intros [r H]; discriminate H.
    + cbn. rewrite app_nil_r. repeat split. intros [r H]; discriminate H.
Qed.

Lemma legacy_first_step this item index w :
  let started := advance (bind (YoutubeDownloader.downloadPlaylist this item)
                            (reactions index)) w in
  launched (snd started)
  = (launched w
     ++ List.map (YoutubeDownloader.playlistCommand this) (with_url [item]))%list
  /\ timers (snd started) = timers w
  /\ ~ is_settled (fst started).
Proof.
  unfold YoutubeDownloader.downloadPlaylist.
  destruct item as [v|c].
  - destruct v; cbn; rewrite app_nil_r; repeat split; intros [r H];
      discriminate H.
  - cbn [destructure with_url]. destruct (JS.truthy (playlistUrl c)).
    + cbn. repeat split. intros [r H]; discriminate H.
    + cbn. rewrite app_nil_r. repeat split. intros [r H]; discriminate H.
Qed.

Lemma start_all_fans_out (downloadPlaylist : argument -> promise)
  (command : config -> string) :
  (forall item index w,
      let started := advance (bind (downloadPlaylist item) (reactions index)) w in
      launched (snd started)
      = (launched w ++ List.map command (with_url [item]))%list
      /\ timers (snd started) = timers w
      /\ ~ is_settled (fst started)) ->
  forall items index rej w,
    let '(ts, _, w') :=
      start_all (downloadPromises downloadPlaylist index items) rej w in
    launched w' = (launched w ++ List.map command (with_url items))%list
    /\ timers w' = timers w
    /\ Forall (fun t => ~ is_settled t) ts.
Proof.
  intros first. induction items as [|item items IH]; intros index rej w.
  - cbn. rewrite app_nil_r. auto.
  - cbn [downloadPromises start_all].
    destruct (first item index w) as (Hl & Ht & Hs).
    destruct (advance _ w) as [t w1]. cbn [fst snd] in Hl, Ht, Hs.
    specialize (IH (S index) (note t rej) w1).
    destruct (start_all _ (note t rej) w1) as [[ts rej'] w2].
    destruct IH as (Hl2 & Ht2 & Hs2).
    split; [|split].
    + rewrite Hl2, Hl, (with_url_cons item items), map_app, <- app_assoc.
      reflexivity.
    + now rewrite Ht2.
    + now constructor.
Qed.

(** X6.  When [downloadMultiplePlaylists] suspends on [Promise.all], that
    is before any process has closed, it has launched the command of every
    item that has a URL, in the order of the array and without any limit on
    their number; items without a URL launched nothing; no timer is set and
    no item has settled yet. *)
Theorem batch_launches_everything_at_once (this : downloader)
  (items : list argument) (w : world) :
  items <> [] ->
  (let st := YoutubePlaylistDownloader.downloadMultiplePlaylists this
               (Array items) w in
   launched (trace st)
   = (launched w
      ++ List.map (YoutubePlaylistDownloader.command this) (with_url items))%list
   /\ timers (trace st) = timers w
   /\ Forall (fun t => ~ is_settled t) (tasks st)
   /\ caller_state st = Awaiting after_downloads)
  /\ (let st := YoutubeDownloader.downloadMultiplePlaylists this
                  (Array items) w in
      launched (trace st)
      = (launched w
         ++ List.map (YoutubeDownloader.playlistCommand this) (with_url items))%list
      /\ timers (trace st) = timers w
      /\ Forall (fun t => ~ is_settled t) (tasks st)
      /\ caller_state st = Awaiting after_downloads).
Proof.
  intros nonempty.
  unfold YoutubePlaylistDownloader.downloadMultiplePlaylists,
    YoutubeDownloader.downloadMultiplePlaylists.
  rewrite !(batch_start _ _ _ nonempty). unfold await_all. split.
  - pose proof (start_all_fans_out _ _ (playlist_first_step this) items 0 None
                  (do_print (log ("Starting download of "
                                  ++ show_nat (List.length items)
                                  ++ " playlists...")) w)) as H.
    destruct (start_all _ None _) as [[ts rej] w'].
    destruct H as (Hl & Ht & Hs). cbn. auto.
  - pose proof (start_all_fans_out _ _ (legacy_first_step this) items 0 None
                  (do_print (log ("Starting download of "
                                  ++ show_nat (List.length items)
                                  ++ " playlists...")) w)) as H.
    destruct (start_all _ None _) as [[ts rej] w'].
    destruct H as (Hl & Ht & Hs). cbn. auto.
Qed.

Lemma batch_launches_everything_at_once_witness :
  List.length
    (launched (trace (YoutubePlaylistDownloader.downloadMultiplePlaylists
                        (YoutubePlaylistDownloader.new "/d")
                        (Array [Obj a_playlist; Obj no_url; Prim JS.null;
                                Obj a_playlist]) world0))) = 2.
Proof.
  destruct (batch_launches_everything_at_once
              (YoutubePlaylistDownloader.new "/d")
              [Obj a_playlist; Obj no_url; Prim JS.null; Obj a_playlist]
              world0 ltac:(discriminate)) as [(Hl & _) _].
  rewrite Hl. reflexivity.
Defined.

(** ** The loop of [main] over the videos *)

Lemma run_bind {A B} launcher (p : prog A) (f : A -> prog B) :
  forall w,
    run launcher (bind p f) w
    = run launcher (f (fst (run launcher p w))) (snd (run launcher p w)).
Proof.
  induction p as [a|c k IH|ms k IH|l k IH|k IH]; intros w; cbn; auto.
Qed.

Lemma run_console_grows {A} launcher (p : prog A) :
  forall w, exists more,
    console (snd (run launcher p w)) = (console w ++ more)%list.
Proof.
  induction p as [a|c k IH|ms k IH|l k IH|k IH]; intros w; cbn.
  - exists []. now rewrite app_nil_r.
  - apply (IH _ (do_exec c w)).
  - apply (IH (do_timer ms w)).
  - destruct (IH (do_print l w)) as [more H]. exists (l :: more).
    rewrite H. cbn. now rewrite <- app_assoc.
  - apply IH.
Qed.

Lemma download_each_cons launcher downloadSingleVideo video rest w :
  run launcher (download_each downloadSingleVideo (video :: rest)) w
  = let started :=
      do_print (log ("Starting download for: "
                     ++ JS.toString (videoUrl video))) w in
    let w1 := snd (run launcher (downloadSingleVideo (Obj video)) started) in
    match fst (run launcher (downloadSingleVideo (Obj video)) started) with
    | Fulfilled _ =>
        run launcher (download_each downloadSingleVideo rest)
          (do_print (log ("Completed download for: "
                          ++ JS.toString (videoUrl video))) w1)
    | Rejected e =>
        (Exits 1, do_print (error ("Download failed: " ++ JS.message e)) w1)
    end.
Proof.
  cbn [download_each run]. rewrite run_bind. cbn zeta.
  now destruct (fst (run launcher _ _)).
Qed.



(** X8.  How the loop ends tells what happened.  Either it returns, its
    last line is "All videos downloaded successfully!" and for every video
    of the list "Completed download for: URL" was printed; or it calls
    [process.exit(1)], and then the list splits into the videos that were
    downloaded ([finished]: the loop over them alone returns, reaching the
    state [reached] before its closing line), the video whose download was
    rejected when started in that state, and the videos that were never
    started; the run ends in the state that download left, with one more
    line: "Download failed: " followed by the message of the error that
    download was rejected with.  It never ends in another way. *)
Theorem main_loop_ends_truthfully (downloadSingleVideo : argument -> promise)
  (videos : list config) (launcher : nat -> proc_run) (w : world) :
  let ended := run launcher (download_each downloadSingleVideo videos) w in
  (fst ended = Returns
   /\ (exists before,
          console (snd ended)
          = (before ++ [log "All videos downloaded successfully!"])%list)
   /\ forall video, In video videos ->
        In (log ("Completed download for: " ++ JS.toString (videoUrl video)))
           (console (snd ended)))
  \/ (fst ended = Exits 1
      /\ exists finished video rest reached thrown left_in,
           videos = (finished ++ video :: rest)%list
           /\ run launcher (download_each downloadSingleVideo finished) w
              = (Returns,
                 do_print (log "All videos downloaded successfully!") reached)
           /\ run launcher (downloadSingleVideo (Obj video))
                (do_print (log ("Starting download for: "
                                ++ JS.toString (videoUrl video))) reached)
              = (Rejected thrown, left_in)
           /\ snd ended
              = do_print (error ("Download failed: " ++ JS.message thrown))
                  left_in).
Proof.
  revert w. induction videos as [|video rest IH]; intros w.
  - left. cbn. split; [reflexivity|]. split; [now exists (console w)|].
    intros video [].
  - cbn zeta. rewrite download_each_cons. cbn zeta.
    destruct (run launcher (downloadSingleVideo (Obj video))
                (do_print (log ("Starting download for: "
                                ++ JS.toString (videoUrl video))) w))
      as [[v|thrown] w1] eqn:R; cbn [fst snd].
    + specialize (IH (do_print (log ("Completed download for: "
                                     ++ JS.toString (videoUrl video))) w1)).
      destruct (run_console_grows launcher
                  (download_each downloadSingleVideo rest)
                  (do_print (log ("Completed download for: "
                                  ++ JS.toString (videoUrl video))) w1))
        as [more Hmore].
      cbn zeta in IH.
      destruct IH as [(Hr & Hlast & Hall)
                     |(Hr & finished & failing & later & reached & thrown
                       & left_in & Hsplit & Hdone & Hfail & Hend)].
      * left. split; [exact Hr|]. split; [exact Hlast|].
        intros video' [<-|Hin]; [|now apply Hall].
        rewrite Hmore. apply in_or_app. left. cbn. apply in_or_app. right.
        now left.
      * right. split; [exact Hr|].
        exists (video :: finished), failing, later, reached, thrown, left_in.
        split; [now rewrite Hsplit|].
        split; [|split; [exact Hfail | exact Hend]].
        rewrite download_each_cons. cbn zeta. rewrite R. cbn [fst snd].
        exact Hdone.
    + right. split; [reflexivity|].
      exists [], video, rest, w, thrown, w1.
      split; [reflexivity|]. split; [reflexivity|].
      split; [exact R | reflexivity].
Qed.

(** ** [main] of the playlist downloaders *)

Lemma main_inv_step downloadPlaylist items launcher w ev s s' :
  items <> [] ->
  main_inv launcher w (List.length items) s ->
  main_step downloadPlaylist (Array items) launcher ev s = Some s' ->
  main_inv launcher w (List.length items) s'.
Proof.
  intros nonempty Hinv Hstep.
  destruct s as [l|l|e w0]; destruct ev as [ev|]; cbn in Hstep;
    try discriminate.
  - destruct (step launcher ev l) as [l'|] eqn:S; [|discriminate].
    injection Hstep as <-. cbn. eapply versions_inv_step; eassumption.
  - destruct Hinv as (d1 & d2 & _ & _ & _ & Hc).
    destruct (caller_state l) as [k|r]; [discriminate|].
    destruct Hc as [(-> & _)|(-> & _)]; cbn in Hstep; injection Hstep as <-.
    + cbn. now apply batch_inv_start.
    + reflexivity.
  - destruct (step launcher ev l) as [l'|] eqn:S; [|discriminate].
    injection Hstep as <-. cbn. eapply batch_inv_step; eassumption.
  - destruct Hinv as (_ & _ & _ & [Hc|[Hc _]]); rewrite Hc in Hstep;
      [discriminate|]. injection Hstep as <-. reflexivity.
Qed.

Lemma main_inv_run downloadPlaylist items launcher w evs :
  items <> [] ->
  forall s s',
    main_inv launcher w (List.length items) s ->
    main_run downloadPlaylist (Array items) launcher evs s = Some s' ->
    main_inv launcher w (List.length items) s'.
Proof.
  intros nonempty. induction evs as [|ev evs IH]; intros s s' Hinv Hrun;
    cbn in Hrun.
  - now injection Hrun as <-.
  - destruct (main_step downloadPlaylist (Array items) launcher ev s)
      as [s1|] eqn:S; [|discriminate].
    eapply IH; [eapply main_inv_step|]; eassumption.
Qed.

(** Nothing happens once [main] has ended. *)
Lemma main_run_ended downloadPlaylist playlists launcher evs e w s :
  main_run downloadPlaylist playlists launcher evs (Ended e w) = Some s ->
  s = Ended e w.
Proof.
  destruct evs as [|ev evs]; cbn; intros H; [now injection H | discriminate H].
Qed.

(** X9.  [main] of the playlist downloaders never calls [process.exit(1)],
    whatever the downloads do: [downloadMultiplePlaylists] on a non-empty
    array reports each failure and resolves, so the [catch] block of [main]
    is never entered and a run in which every playlist failed ends like a
    successful one, by returning.  The one other way [main] ends is the
    rejection of its promise with what the constructor threw, before
    anything is launched or printed. *)
Theorem playlist_main_never_exits_1 (downloadPlaylist : argument -> promise)
  (items : list argument) (launcher : nat -> proc_run)
  (constructed : settled downloader) (w : world)
  (evs : list main_event) (e : ending) (w' : world) :
  items <> [] ->
  main_run downloadPlaylist (Array items) launcher evs
    (main_start constructed w)
  = Some (Ended e w') ->
  match constructed with
  | Fulfilled _ => e = Returns
  | Rejected thrown => e = Uncaught thrown /\ w' = w
  end.
Proof.
  intros nonempty Hrun. destruct constructed as [this|thrown].
  - apply (main_inv_run downloadPlaylist items launcher w evs nonempty
             (main_start (Fulfilled this) w) (Ended e w')
             (versions_inv_start launcher w) Hrun).
  - apply main_run_ended in Hrun. injection Hrun as -> ->. auto.
Qed.

Lemma playlist_main_never_exits_1_witness :
  (exists this w',
      YoutubePlaylistDownloader.constructor a_host = Fulfilled this
      /\ main_run (YoutubePlaylistDownloader.downloadPlaylist this)
           playlistsToDownload downloads_fail main_schedule
           (main_start (YoutubePlaylistDownloader.constructor a_host) world0)
         = Some (Ended Returns w')
      /\ List.length (launched w') = 5
      /\ List.last (console w') (log "") = log "All downloads completed!")
  /\ (exists m,
        main_run (YoutubePlaylistDownloader.downloadPlaylist
                    (YoutubePlaylistDownloader.new "/d"))
          playlistsToDownload downloads_fail []
          (main_start (YoutubePlaylistDownloader.constructor no_home) world0)
        = Some (Ended (Uncaught (JS.TypeError m)) world0)).
Proof.
  split.
  - exists (YoutubePlaylistDownloader.new "/home/user/Downloads/playlists").
    destruct (main_run (YoutubePlaylistDownloader.downloadPlaylist
                          (YoutubePlaylistDownloader.new
                             "/home/user/Downloads/playlists"))
                playlistsToDownload downloads_fail main_schedule
                (main_start (YoutubePlaylistDownloader.constructor a_host)
                   world0)) as [[l|l|e w']|] eqn:Hrun;
      try (vm_compute in Hrun; discriminate Hrun).
    exists w'. split; [reflexivity|].
    assert (e = Returns) as ->
      by exact (playlist_main_never_exits_1 _ (elements playlistsToDownload)
                  downloads_fail (YoutubePlaylistDownloader.constructor a_host)
                  world0 main_schedule e w' ltac:(cbn; discriminate) Hrun).
    split; [reflexivity|].
    vm_compute in Hrun. injection Hrun as <-. split; reflexivity.
  - eexists. reflexivity.
Defined.

Lemma stopped_inv_step downloadPlaylist playlists launcher w ev s s' :
  succeeded (launcher (List.length (launched w)))
  && succeeded (nth_run launcher w 1) = false ->
  stopped_inv launcher w s ->
  main_step downloadPlaylist playlists launcher ev s = Some s' ->
  stopped_inv launcher w s'.
Proof.
  intros missing Hinv Hstep.
  destruct s as [l|l|e w0]; destruct ev as [ev|]; cbn in Hstep;
    try discriminate; try contradiction.
  - destruct (step launcher ev l) as [l'|] eqn:S; [|discriminate].
    injection Hstep as <-. cbn. eapply versions_inv_step; eassumption.
  - destruct Hinv as (d1 & d2 & _ & _ & Hl & Hc).
    destruct (caller_state l) as [k|r]; [discriminate|]. cbn zeta in Hc.
    destruct Hc as [(-> & Hboth & _)|(-> & _ & Hcon)].
    + rewrite missing in Hboth. discriminate.
    + cbn in Hstep. injection Hstep as <-. cbn.
      split; [reflexivity|]. split; [exact Hl|].
      rewrite Hcon, <- app_assoc. reflexivity.
Qed.

(** X10.  When one of the two version queries fails, [main] of the playlist
    downloaders never starts a download, in any schedule: the two version
    queries are the only processes it ever launches, and when it ends it has
    returned after printing the diagnostic of [checkDependencies] and
    "Please install required dependencies and try again".  When the
    constructor threw, [main] has ended at once, with nothing launched. *)
Theorem missing_dependency_stops_main (downloadPlaylist : argument -> promise)
  (playlists : batch_argument) (launcher : nat -> proc_run)
  (constructed : settled downloader) (w : world)
  (evs : list main_event) (s : main_state) :
  succeeded (launcher (List.length (launched w)))
  && succeeded (launcher (List.length (launched w) + 1)) = false ->
  main_run downloadPlaylist playlists launcher evs (main_start constructed w)
  = Some s ->
  match constructed with
  | Fulfilled _ =>
      launched (main_trace s)
      = (launched w ++ ["yt-dlp --version"; "ffmpeg -version"])%list
      /\ (forall l, s <> Downloading l)
      /\ (forall e w', s = Ended e w' ->
            e = Returns
            /\ console w'
               = (console w ++ [missing_dependencies; please_install])%list)
  | Rejected thrown => s = Ended (Uncaught thrown) w
  end.
Proof.
  intros missing Hrun. destruct constructed as [this|thrown];
    [|now apply main_run_ended in Hrun].
  assert (Hinv : stopped_inv launcher w s).
  { revert Hrun. generalize (versions_inv_start launcher w).
    change (versions_inv launcher w (checkDependencies w))
      with (stopped_inv launcher w (main_start (Fulfilled this) w)).
    generalize (main_start (Fulfilled this) w). induction evs as [|ev evs IH];
      intros s0 Hinv Hrun; cbn in Hrun.
    - now injection Hrun as <-.
    - destruct (main_step downloadPlaylist playlists launcher ev s0)
        as [s1|] eqn:S; [|discriminate].
      eapply IH; [eapply stopped_inv_step|]; eassumption. }
  destruct s as [l|l|e w0]; cbn in Hinv.
  - destruct Hinv as (d1 & d2 & _ & _ & Hl & _).
    split; [exact Hl|]. split; [discriminate|]. discriminate.
  - contradiction.
  - destruct Hinv as (-> & Hl & Hcon).
    split; [exact Hl|]. split; [discriminate|].
    intros e w' E. injection E as <- <-. auto.
Qed.

Lemma missing_dependency_stops_main_witness :
  match main_run (YoutubePlaylistDownloader.downloadPlaylist
                    (YoutubePlaylistDownloader.new "/d"))
          playlistsToDownload ffmpeg_missing
          [Inner (Wake 1 Close); Inner Resume; Continue]
          (main_start (YoutubePlaylistDownloader.constructor a_host) world0)
  with
  | Some s =>
      launched (main_trace s) = ["yt-dlp --version"; "ffmpeg -version"]
      /\ s = Ended Returns (main_trace s)
  | None => False
  end.
Proof.
  pose proof (missing_dependency_stops_main
                (YoutubePlaylistDownloader.downloadPlaylist
                   (YoutubePlaylistDownloader.new "/d"))
                playlistsToDownload ffmpeg_missing
                (YoutubePlaylistDownloader.constructor a_host) world0
                [Inner (Wake 1 Close); Inner Resume; Continue]) as H.
  destruct (main_run _ playlistsToDownload ffmpeg_missing _ _) as [s|] eqn:Hrun.
  - destruct (H s eq_refl eq_refl) as (Hl & _ & _).
    split; [exact Hl|].
    vm_compute in Hrun. injection Hrun as <-. reflexivity.
  - vm_compute in Hrun. discriminate Hrun.
Defined.

(** ** When [checkDependencies] returns *)

Lemma true_is_late_step launcher ev st st' :
  true_is_late st -> step launcher ev st = Some st' -> true_is_late st'.
Proof.
  unfold true_is_late. intros Hinv Hstep.
  destruct ev as [i s|]; unfold step in Hstep.
  - destruct (nth_error (tasks st) i) as [t|] eqn:Hn; [|discriminate].
    destruct (wake launcher s t) as [p|] eqn:Hw; [|discriminate].
    destruct (advance p (trace st)) as [t' w']. injection Hstep as <-.
    cbn [caller_state tasks].
    destruct (caller_state st) as [k|r]; [exact Hinv|].
    intros Hr. exfalso. specialize (Hinv Hr). rewrite Forall_forall in Hinv.
    destruct (Hinv t (nth_error_In _ _ Hn)) as [r' ->].
    rewrite wake_settled in Hw. discriminate.
  - destruct (caller_state st) as [k|r]; [|discriminate]. subst k.
    unfold all_outcome in Hstep.
    destruct (rejection st) as [e|].
    + cbn in Hstep. injection Hstep as <-. cbn. discriminate.
    + destruct (values (tasks st)) as [vs|] eqn:Hv; [|discriminate].
      cbn in Hstep. injection Hstep as <-. cbn. intros _.
      eapply values_settled; eassumption.
Qed.

(** X11.  [checkDependencies] answers [true] only once both version queries
    have closed, in every schedule; [false] it can answer as soon as one
    query has failed, while the other process is still running. *)
Theorem checkDependencies_true_waits_for_both (launcher : nat -> proc_run)
  (w : world) :
  (forall evs st,
      run_events launcher evs (checkDependencies w) = Some st ->
      caller_state st = Returned (Fulfilled (JS.boolean true)) ->
      Forall is_settled (tasks st))
  /\ (succeeded (launcher (List.length (launched w) + 1)) = false ->
      exists st,
        run_events launcher [Wake 1 Close; Resume] (checkDependencies w)
        = Some st
        /\ caller_state st = Returned (Fulfilled (JS.boolean false))
        /\ exists k, nth_error (tasks st) 0
                     = Some (OnClose (List.length (launched w)) k)).
Proof.
  split.
  - intros evs st Hrun Hret.
    assert (Hinv : true_is_late st).
    { revert Hrun.
      assert (H0 : true_is_late (checkDependencies w)) by reflexivity.
      revert H0. generalize (checkDependencies w).
      induction evs as [|ev evs IH]; intros st0 H0 Hrun; cbn in Hrun.
      - now injection Hrun as <-.
      - destruct (step launcher ev st0) as [st1|] eqn:S; [|discriminate].
        eapply IH; [eapply true_is_late_step|]; eassumption. }
    unfold true_is_late in Hinv. rewrite Hret in Hinv. now apply Hinv.
  - intros failed.
    assert (He : exists e, callback "ffmpeg -version"
                             (launcher (List.length (launched w) + 1))
                           = Rejected e).
    { unfold callback. rewrite failed. eauto. }
    destruct He as [e He].
    with_strategy opaque [callback] cbn. rewrite length_app. cbn [List.length].
    rewrite He. unfold all_outcome. with_strategy opaque [callback] cbn.
    eexists. split; [reflexivity|]. split; [reflexivity|].
    eexists. reflexivity.
Qed.

Lemma checkDependencies_true_waits_for_both_witness :
  exists st,
    run_events ffmpeg_missing [Wake 1 Close; Resume] (checkDependencies world0)
    = Some st
    /\ caller_state st = Returned (Fulfilled (JS.boolean false))
    /\ List.length (List.filter (fun t => match t with
                                          | OnClose _ _ => true
                                          | _ => false
                                          end) (tasks st)) = 1.
Proof.
  destruct (proj2 (checkDependencies_true_waits_for_both ffmpeg_missing world0)
              eq_refl) as (st & Hrun & Hret & k & Hk).
  exists st. split; [exact Hrun|]. split; [exact Hret|].
  vm_compute in Hrun. injection Hrun as <-. reflexivity.
Defined.

(** ** The launches of the loop of [main] *)

Lemma launches_le_weaken {A} (p : prog A) :
  forall n m, n <= m -> launches_le n p -> launches_le m p.
Proof.
  induction p as [a|c k IH|ms k IH|l k IH|k IH]; intros n m Hle; cbn; auto.
  - destruct n as [|n]; [contradiction|]. destruct m as [|m]; [lia|].
    intros H child. apply (IH child n m); [lia | apply H].
  - apply IH. exact Hle.
  - apply IH. exact Hle.
  - apply IH. exact Hle.
Qed.

Lemma launches_le_bind {A B} (p : prog A) (f : A -> prog B) :
  forall a b, launches_le a p -> (forall r, launches_le b (f r)) ->
              launches_le (a + b) (bind p f).
Proof.
  induction p as [r|c k IH|ms k IH|l k IH|k IH]; intros a b Hp Hf; cbn in *;
    auto.
  - apply (launches_le_weaken _ b); [lia | apply Hf].
  - destruct a as [|a]; [contradiction|]. cbn. intros child.
    apply IH; [apply Hp | exact Hf].
Qed.

Lemma download_each_launches (downloadSingleVideo : argument -> promise)
  (videos : list config) (b : nat) :
  (forall a, launches_le b (downloadSingleVideo a)) ->
  launches_le (b * List.length videos) (download_each downloadSingleVideo videos).
Proof.
  intros Hd. induction videos as [|video rest IH]; [exact I|].
  cbn [download_each launches_le List.length].
  rewrite Nat.mul_succ_r, Nat.add_comm.
  apply launches_le_bind; [apply Hd|].
  intros [v|e]; cbn; [exact IH | exact I].
Qed.

(** X12.  The launches of the loop of [main] over [n] videos, whatever the
    processes do: at most [3 * n] with the hardened single-video downloader
    (youtube-downloader.js), and none at all with the downloader of
    youtube-single-downloader.js, whose [downloadSingleVideo] cannot reach
    [exec]. *)
Theorem main_loop_launches_are_bounded (this : downloader)
  (videos : list config) (launcher : nat -> proc_run) (w : world) :
  launched (snd (run launcher
                   (download_each
                      (YoutubeSingleDownloader.downloadSingleVideo this)
                      videos) w))
  = launched w
  /\ List.length
       (launched (snd (run launcher
                         (download_each
                            (HardenedSingleDownloader.downloadSingleVideo this)
                            videos) w)))
     <= List.length (launched w) + 3 * List.length videos.
Proof.
  split.
  - apply run_without_launch.
    apply (download_each_launches _ videos 0). intros a.
    apply strict_single_launches.
  - apply launches_le_run, download_each_launches. intros a.
    apply hardened_single_launches.
Qed.

(** X15.  The loop of [main] of youtube-single-downloader.js never gets
    past its first video: when that video has a URL, the loop launches
    nothing, whatever the processes would do; it prints the two notices of
    [downloadSingleVideo] and its two retry notices, sleeps 2000 ms twice,
    prints "Download failed: exec is not defined" and calls
    [process.exit(1)].  No video of the list is ever downloaded. *)
Theorem strict_main_loop_fails_on_first_video (this : downloader)
  (video : config) (rest : list config) (launcher : nat -> proc_run)
  (w : world) :
  JS.truthy (videoUrl video) = true ->
  run launcher
    (download_each (YoutubeSingleDownloader.downloadSingleVideo this)
       (video :: rest)) w
  = (Exits 1,
     mkWorld (launched w) (timers w ++ [2000; 2000]%Z)
       (console w
        ++ [ log ("Starting download for: " ++ JS.toString (videoUrl video));
             log ("Starting download for video: "
                  ++ JS.toString (videoUrl video));
             log ("Debug: Executing command: "
                  ++ YoutubeSingleDownloader.command this video);
             log "Retry attempt 1/3..."; log "Retry attempt 2/3...";
             error "Download failed: exec is not defined" ])).
Proof.
  intros url. rewrite download_each_cons. cbn zeta.
  rewrite (strict_single_run this video launcher _ url). cbn [fst snd].
  unfold do_print. cbn [launched timers console JS.message].
  rewrite <- !app_assoc. reflexivity.
Qed.

Lemma strict_main_loop_fails_on_first_video_witness :
  let ended :=
    run (exits 0)
      (download_each
         (YoutubeSingleDownloader.downloadSingleVideo
            (YoutubeSingleDownloader.new "/home/user/Downloads/youtube-downloads"))
         videosToDownload) world0 in
  fst ended = Exits 1
  /\ launched (snd ended) = []
  /\ List.last (console (snd ended)) (log "")
     = error "Download failed: exec is not defined".
Proof.
  cbn zeta. unfold videosToDownload.
  rewrite (strict_main_loop_fails_on_first_video
             (YoutubeSingleDownloader.new "/home/user/Downloads/youtube-downloads")
             (mkConfig (JS.str "https://www.youtube.com/watch?v=VIDEO_ID_1")
                JS.undefined (JS.number 720) JS.undefined)
             [ mkConfig (JS.str "https://www.youtube.com/watch?v=VIDEO_ID_2")
                 JS.undefined (JS.number 1080) JS.undefined ]
             (exits 0) world0 eq_refl).
  repeat split.
Defined.

(** ** The command line of youtube-downloader.js *)

Lemma single_inv_step this launcher w ev s s' :
  single_inv launcher w s -> cli_step this launcher ev s = Some s' ->
  single_inv launcher w s'.
Proof.
  intros Hinv Hstep.
  destruct s as [l|l|l|e w0]; destruct ev as [ev|]; cbn in Hstep;
    try discriminate; try contradiction.
  - destruct (step launcher ev l) as [l'|] eqn:S; [|discriminate].
    injection Hstep as <-. cbn. eapply versions_inv_step; eassumption.
  - destruct Hinv as (d1 & d2 & _ & _ & Hl & Hc).
    destruct (caller_state l) as [k|r]; [discriminate|]. cbn zeta in Hc.
    destruct Hc as [(-> & Hboth & Hcon)|(-> & Hboth & Hcon)];
      cbn in Hstep; injection Hstep as <-; cbn; (split; [exact Hl|]).
    + right. split; [exact Hboth|]. split; [reflexivity|].
      rewrite Hcon, <- app_assoc. reflexivity.
    + left. split; [exact Hboth|]. split; [reflexivity|].
      rewrite Hcon, <- app_assoc. reflexivity.
Qed.

Lemma single_inv_run this launcher w evs :
  forall s s', single_inv launcher w s ->
               cli_run this launcher evs s = Some s' ->
               single_inv launcher w s'.
Proof.
  induction evs as [|ev evs IH]; intros s s' Hinv Hrun; cbn in Hrun.
  - now injection Hrun as <-.
  - destruct (cli_step this launcher ev s) as [s1|] eqn:S; [|discriminate].
    eapply IH; [eapply single_inv_step|]; eassumption.
Qed.

(** Nothing happens once the command has ended. *)
Lemma cli_run_ended this launcher evs e w s :
  cli_run this launcher evs (CliEnded e w) = Some s -> s = CliEnded e w.
Proof.
  destruct evs as [|ev evs]; cbn; intros H; [now injection H | discriminate H].
Qed.

(** X13.  [node youtube-downloader.js single] never downloads anything, in
    any schedule and whatever the processes do: the two version queries are
    the only processes it launches.  When a tool is missing it returns after
    the two diagnostics; when both tools answer it prints
    "Starting single video download...", fails with "singleVideo is not
    defined" and calls [process.exit(1)].  When the constructor threw, it
    has ended at once, with nothing launched. *)
Theorem cli_single_never_downloads (this : downloader)
  (launcher : nat -> proc_run) (h : host) (w : world) (evs : list main_event)
  (s : cli_state) :
  cli_run this launcher evs (cli_start (JS.str "single") h w) = Some s ->
  match YoutubeDownloader.constructor h with
  | Fulfilled _ =>
      let both := succeeded (launcher (List.length (launched w)))
                  && succeeded (launcher (List.length (launched w) + 1)) in
      launched (cli_trace s)
      = (launched w ++ ["yt-dlp --version"; "ffmpeg -version"])%list
      /\ forall e w', s = CliEnded e w' ->
           (both = false /\ e = Returns
            /\ console w'
               = (console w ++ [missing_dependencies; please_install])%list)
           \/ (both = true /\ e = Exits 1
               /\ console w'
                  = (console w
                     ++ [ log "Starting single video download...";
                          error "Download failed with details: singleVideo is not defined" ])%list)
  | Rejected thrown => s = CliEnded (Uncaught thrown) w
  end.
Proof.
  intros Hrun.
  change (cli_start (JS.str "single") h w)
    with (match YoutubeDownloader.constructor h with
          | Fulfilled _ => SingleChecking (checkDependencies w)
          | Rejected thrown => CliEnded (Uncaught thrown) w
          end) in Hrun.
  destruct (YoutubeDownloader.constructor h) as [constructed|thrown];
    [|now apply cli_run_ended in Hrun].
  intros both.
  pose proof (single_inv_run this launcher w evs _ s
                (versions_inv_start launcher w : single_inv launcher w
                   (SingleChecking (checkDependencies w))) Hrun) as Hinv.
  destruct s as [l|l|l|e w0]; cbn in Hinv; try contradiction.
  - destruct Hinv as (d1 & d2 & _ & _ & Hl & _).
    split; [exact Hl | discriminate].
  - destruct Hinv as [Hl Hend]. split; [exact Hl|].
    intros e' w' E. injection E as <- <-. exact Hend.
Qed.

Lemma cli_single_never_downloads_witness :
  cli_run (YoutubeDownloader.new "/home/user/Downloads/playlists") (exits 0)
    cli_schedule (cli_start (JS.str "single") a_host world0)
  = Some (CliEnded (Exits 1)
            (mkWorld ["yt-dlp --version"; "ffmpeg -version"] []
               [ log "Starting single video download...";
                 error "Download failed with details: singleVideo is not defined" ])).
Proof.
  destruct (cli_run (YoutubeDownloader.new "/home/user/Downloads/playlists")
              (exits 0) cli_schedule
              (cli_start (JS.str "single") a_host world0)) as [s|] eqn:Hrun;
    [|vm_compute in Hrun; discriminate Hrun].
  destruct (cli_single_never_downloads _ _ _ _ _ _ Hrun) as [Hl Hend].
  destruct s as [l|l|l|e w'];
    try (vm_compute in Hrun; discriminate Hrun).
  destruct (Hend e w' eq_refl) as [(Hb & _)|(_ & -> & Hcon)];
    [discriminate Hb|].
  cbn in Hl, Hcon. destruct w' as [ls ts cs]. cbn in Hl, Hcon. subst ls cs.
  vm_compute in Hrun. injection Hrun as <-. reflexivity.
Defined.

Lemma playlist_inv_step this launcher w ev s s' :
  playlist_inv launcher w s -> cli_step this launcher ev s = Some s' ->
  playlist_inv launcher w s'.
Proof.
  intros Hinv Hstep.
  destruct s as [l|l|l|e w0]; destruct ev as [ev|]; cbn in Hstep;
    try discriminate; try contradiction.
  - destruct (step launcher ev l) as [l'|] eqn:S; [|discriminate].
    injection Hstep as <-. cbn. eapply versions_inv_step; eassumption.
  - destruct Hinv as (d1 & d2 & _ & _ & _ & Hc).
    destruct (caller_state l) as [k|r]; [discriminate|].
    destruct Hc as [(-> & _)|(-> & _)]; cbn in Hstep; injection Hstep as <-.
    + exact (batch_inv_start (YoutubeDownloader.downloadPlaylist this)
               (elements cli_playlists) _ ltac:(discriminate)).
    + reflexivity.
  - destruct (step launcher ev l) as [l'|] eqn:S; [|discriminate].
    injection Hstep as <-. cbn. eapply batch_inv_step; eassumption.
  - destruct Hinv as (_ & _ & _ & [Hc|[Hc _]]); rewrite Hc in Hstep;
      [discriminate|]. injection Hstep as <-. reflexivity.
Qed.

(** X14.  [node youtube-downloader.js playlist] never calls
    [process.exit(1)], in any schedule and whatever the downloads do: a
    failed playlist is reported by [downloadMultiplePlaylists], which
    resolves, so the [catch] block of [downloadPlaylist] is never entered and
    the function returns.  The one other way it ends is the rejection of its
    promise with what the constructor threw, before anything is launched or
    printed. *)
Theorem cli_playlist_never_exits_1 (this : downloader)
  (launcher : nat -> proc_run) (h : host) (w : world) (evs : list main_event)
  (e : ending) (w' : world) :
  cli_run this launcher evs (cli_start (JS.str "playlist") h w)
  = Some (CliEnded e w') ->
  match YoutubeDownloader.constructor h with
  | Fulfilled _ => e = Returns
  | Rejected thrown => e = Uncaught thrown /\ w' = w
  end.
Proof.
  intros Hrun.
  change (cli_start (JS.str "playlist") h w)
    with (match YoutubeDownloader.constructor h with
          | Fulfilled _ => PlaylistChecking (checkDependencies w)
          | Rejected thrown => CliEnded (Uncaught thrown) w
          end) in Hrun.
  destruct (YoutubeDownloader.constructor h) as [constructed|thrown].
  - assert (Hinv : playlist_inv launcher w (CliEnded e w')).
    { revert Hrun.
      generalize (versions_inv_start launcher w : playlist_inv launcher w
                    (PlaylistChecking (checkDependencies w))).
      generalize (PlaylistChecking (checkDependencies w)).
      induction evs as [|ev evs IH]; intros s0 Hinv Hrun; cbn in Hrun.
      - now injection Hrun as <-.
      - destruct (cli_step this launcher ev s0) as [s1|] eqn:S; [|discriminate].
        eapply IH; [eapply playlist_inv_step|]; eassumption. }
    exact Hinv.
  - apply cli_run_ended in Hrun. injection Hrun as -> ->. auto.
Qed.

Lemma cli_playlist_never_exits_1_witness :
  (exists w',
      cli_run (YoutubeDownloader.new "/home/user/Downloads/playlists")
        downloads_fail
        (cli_schedule ++ [ Inner (Wake 0 Close); Inner (Wake 0 Reaction);
                           Inner Resume; Continue ])
        (cli_start (JS.str "playlist") a_host world0)
      = Some (CliEnded Returns w')
      /\ In (error "Playlist 1 failed: Download failed with code 2")
            (console w'))
  /\ (exists m,
        cli_run (YoutubeDownloader.new "/d") downloads_fail []
          (cli_start (JS.str "playlist") no_home world0)
        = Some (CliEnded (Uncaught (JS.TypeError m)) world0)).
Proof.
  split.
  - destruct (cli_run (YoutubeDownloader.new "/home/user/Downloads/playlists")
                downloads_fail _
                (cli_start (JS.str "playlist") a_host world0))
      as [[l|l|l|e w']|] eqn:Hrun;
      try (vm_compute in Hrun; discriminate Hrun).
    exists w'.
    assert (e = Returns) as ->
      by exact (cli_playlist_never_exits_1 _ _ a_host _ _ e w' Hrun).
    split; [reflexivity|].
    vm_compute in Hrun. injection Hrun as <-. cbn. auto 10.
  - eexists. reflexivity.
Defined.
